(** * Gen-Blender Pro: the scene-graph export and ingestion paths

    A shallow embedding of [src/App.tsx] ([handleExport], [handleSendMessage]),
    of the service module ([generateSceneFromPrompt]) and of the data model
    ([GeometryType], [PBRMaterial], [SceneNode], [SceneData], [ChatMessage]).

    Conventions.
    - A JavaScript [number] that carries a coordinate, an angle or a scale is
      a real number ([R]); [Math.cos] and [Math.sin] are the real cosine and
      sine.  Rounding of IEEE doubles is outside the model.
    - A [number] that counts (the vertex counter, an array index, the clock)
      is an [N]; template literals print it in decimal ([pretty]).
    - [Number.prototype.toFixed] belongs to the runtime and is a parameter
      ([toFixed4]) of everything that prints a coordinate.
    - A plain object used as a dictionary is a [gmap] over its own keys;
      what the prototype chain adds to a lookup is written out where the
      source depends on it ([inheritedKey]). *)

From Stdlib Require Import Reals Lra Ascii.
From stdpp Require Import gmap strings list fin_maps pretty sorting.

Open Scope string_scope.

(** ** Data model ([types.ts]) *)

Inductive GeometryType : Type :=
  | BOX | SPHERE | CYLINDER | CONE | TORUS
  | ICOSAHEDRON | DODECAHEDRON | TETRAHEDRON
  | EXTRUSION | WEDGE
  | PLANE
  | WALL | ROOF | FLOOR | WINDOW | PILLAR | STAIRS
  | TREE_COMPLEX.

Global Instance GeometryType_eq_dec : EqDecision GeometryType.
Proof. solve_decision. Defined.

(** A three-component vector [[number, number, number]]. *)
Definition Vec3 : Type := R * R * R.

Record PBRMaterial : Type := {
  color : string;
  roughness : R;
  metalness : R;
  opacity : option R;
  transparent : option bool;
  emissive : option string;
  emissiveIntensity : option R;
  wireframe : option bool
}.

Record SceneNode : Type := {
  id : string;
  name : string;
  group : string;
  type : GeometryType;
  position : Vec3;
  rotation : Vec3;
  scale : Vec3;
  segments : option R;
  material : PBRMaterial;
  shapePath : option (list (list R))
}.

Inductive Environment : Type :=
  | sunset | dawn | night | warehouse | forest | studio | city.

Record SceneData : Type := {
  nodes : list SceneNode;
  environment : Environment;
  ambientLightIntensity : R
}.

Definition INITIAL_SCENE : SceneData :=
  {| nodes := []; environment := city; ambientLightIntensity := 1/2 |}.

(** A value parsed from JSON, before any typing: what the remote model's
    payload is at run time. *)
#[local] Set Warnings "-register-all".
Inductive json : Type :=
  | JNull
  | JBool (b : bool)
  | JNum (x : R)
  | JStr (s : string)
  | JArr (items : list json)
  | JObj (fields : list (string * json)).

Inductive Role : Type := user | ai | system.

(** [text] holds whatever value the handler stored: a string by the
    declared type, the payload's [aiReasoning] (any truthy value) at run
    time. *)
Record ChatMessage : Type := {
  msgId : string;
  role : Role;
  text : json;
  attachment : option string;
  timestamp : N
}.

(** The three [useState] cells of [App]. *)
Record AppState : Type := {
  sceneData : SceneData;
  history : list ChatMessage;
  isProcessing : bool
}.

(** ** Geometry synthesis and transform (the body of [addGeometry]) *)

(** [let v = [...]; if (node.type === PLANE || node.type === WINDOW) v = [...]] *)
Definition localVertices (t : GeometryType) : list Vec3 :=
  let v := [ (-1, -1, 1); (1, -1, 1); (-1, 1, 1); (1, 1, 1);
             (-1, -1, -1); (1, -1, -1); (-1, 1, -1); (1, 1, -1) ]%R in
  if bool_decide (t = PLANE) || bool_decide (t = WINDOW)
  then [ (-1, -1, 0); (1, -1, 0); (-1, 1, 0); (1, 1, 0) ]%R
  else v.

(** [p => [p[0]*scl[0]*0.5, p[1]*scl[1]*0.5, p[2]*scl[2]*0.5]] *)
Definition scalePoint (scl p : Vec3) : Vec3 :=
  let '(p0, p1, p2) := p in
  let '(s0, s1, s2) := scl in
  (p0 * s0 * (1/2), p1 * s1 * (1/2), p2 * s2 * (1/2))%R.

(** The second [v.map]: [cx, sx, ...] are computed once from [rot], the three
    pairs of assignments follow in the order of the source. *)
Definition rotatePoint (rot p : Vec3) : Vec3 :=
  let '(r0, r1, r2) := rot in
  let cx := cos r0 in let sx := sin r0 in
  let cy := cos r1 in let sy := sin r1 in
  let cz := cos r2 in let sz := sin r2 in
  let '(x, y, z) := p in
  let y1 := (y * cx - z * sx)%R in let z1 := (y * sx + z * cx)%R in
  let y := y1 in let z := z1 in
  let x1 := (x * cy + z * sy)%R in let z2 := (- x * sy + z * cy)%R in
  let x := x1 in let z := z2 in
  let x2 := (x * cz - y * sz)%R in let y2 := (x * sz + y * cz)%R in
  let x := x2 in let y := y2 in
  (x, y, z).

(** [p => [p[0] + pos[0], p[1] + pos[1], p[2] + pos[2]]] *)
Definition translatePoint (pos p : Vec3) : Vec3 :=
  let '(p0, p1, p2) := p in
  let '(t0, t1, t2) := pos in
  (p0 + t0, p1 + t1, p2 + t2)%R.

(** The vertex array after the three [map]s, for a node. *)
Definition worldVertices (node : SceneNode) : list Vec3 :=
  let v := localVertices (type node) in
  let v := map (scalePoint (scale node)) v in
  let v := map (rotatePoint (rotation node)) v in
  let v := map (translatePoint (position node)) v in
  v.


(** ** Run-time primitives used by the export *)

(** The line feed of the template literals. *)
Definition nl : string := String (ascii_of_nat 10) "".

(** [s] without its first [n] characters. *)
Fixpoint skip (n : nat) (s : string) : string :=
  match n, s with
  | O, _ => s
  | S n', String _ rest => skip n' rest
  | S _, EmptyString => EmptyString
  end.

(** [s.replace(pattern, replacement)] for a string [pattern]: the first
    occurrence of [pattern] in [s], wherever it is, is replaced; [s] is
    returned as it is when there is none.  (A [$] in [replacement] would be
    special; the replacement used here has none.) *)
Fixpoint String_replace (pattern replacement s : string) : string :=
  if String.prefix pattern s
  then replacement ++ skip (String.length pattern) s
  else match s with
       | EmptyString => EmptyString
       | String c rest => String c (String_replace pattern replacement rest)
       end.

(** [f.join(' ')] on an array of indices. *)
Definition join (sep : string) (f : list N) : string :=
  String.concat sep (pretty <$> f).

(** The property names every object literal inherits from [Object.prototype].
    [groupedNodes[k]] finds these although [groupedNodes] has no such key of
    its own; what it finds is truthy and has no [push]. *)
Definition inheritedKey (k : string) : bool :=
  bool_decide (k ∈ [ "constructor"; "hasOwnProperty"; "isPrototypeOf";
                     "propertyIsEnumerable"; "toLocaleString"; "toString";
                     "valueOf"; "__proto__"; "__defineGetter__";
                     "__defineSetter__"; "__lookupGetter__";
                     "__lookupSetter__" ]).

(** ** The export ([handleExport]) *)

(** The two variables the per-group loop assigns to. *)
Record Writer : Type := {
  objOutput : string;
  vertexOffset : N
}.

(** [objOutput += text] *)
Definition append (text : string) (w : Writer) : Writer :=
  {| objOutput := objOutput w ++ text; vertexOffset := vertexOffset w |}.

(** The [faces] array of the cube branch, for the offset [o]. *)
Definition cubeFaces (o : N) : list (list N) :=
  [ [o; o+1; o+3; o+2]; [o+2; o+3; o+7; o+6]; [o+6; o+7; o+5; o+4];
    [o+4; o+5; o+1; o+0]; [o+2; o+6; o+4; o+0]; [o+7; o+3; o+1; o+5] ]%N.

(** The one face of the quad branch, as the template literal lists it. *)
Definition quadFace (o : N) : list N := [o; o+1; o+3; o+2]%N.

(** [node.group || 'Ungrouped'] *)
Definition normGroup (node : SceneNode) : string :=
  if bool_decide (group node = "") then "Ungrouped" else group node.

(** [targetGroup ? nodes.filter(n => (n.group || 'Ungrouped') === targetGroup) : nodes];
    [targetGroup] is optional, and the empty string is falsy like [undefined]. *)
Definition nodesToExport (targetGroup : option string) (nodes : list SceneNode)
  : list SceneNode :=
  match targetGroup with
  | Some g =>
      if bool_decide (g = "") then nodes
      else filter (λ n, normGroup n = g) nodes
  | None => nodes
  end.

(** The callback of [nodesToExport.forEach]: create the group's array when the
    lookup is falsy, then push.  [None] is the [TypeError] of calling a
    [push] that is not there. *)
Definition pushNode (groupedNodes : gmap string (list SceneNode)) (node : SceneNode)
  : option (gmap string (list SceneNode)) :=
  let groupName := normGroup node in
  if inheritedKey groupName then None
  else
    let groupedNodes :=
      match groupedNodes !! groupName with
      | None => <[groupName := []]> groupedNodes
      | Some _ => groupedNodes
      end in
    Some (alter (λ arr, (arr ++ [node])%list) groupName groupedNodes).

Fixpoint forEachPush (ns : list SceneNode) (groupedNodes : gmap string (list SceneNode))
  : option (gmap string (list SceneNode)) :=
  match ns with
  | [] => Some groupedNodes
  | node :: rest => groupedNodes' ← pushNode groupedNodes node; forEachPush rest groupedNodes'
  end.

(** What a call of [handleExport] ends in. [Download zip fileName]: the
    archive, as the folders added to it (folder name to file name and
    content), and the name given to the download. *)
Inductive ExportOutcome : Type :=
  | NothingToExport
  | ExportTypeError
  | Download (zip : gmap string (string * string)) (fileName : string).

(** [`usemtl ${node.material.color.replace('#', 'Mat_')}\n`] *)
Definition materialLine (node : SceneNode) : string :=
  "usemtl " ++ String_replace "#" "Mat_" (color (material node)) ++ nl.

Section Serialization.

(** [x.toFixed(4)] *)
Variable toFixed4 : R → string.

(** [`v ${vert[0].toFixed(4)} ${vert[1].toFixed(4)} ${vert[2].toFixed(4)}\n`] *)
Definition vertexLine (vert : Vec3) : string :=
  let '(x, y, z) := vert in
  "v " ++ toFixed4 x ++ " " ++ toFixed4 y ++ " " ++ toFixed4 z ++ nl.

(** [`f ${f.join(' ')}\n`] *)
Definition faceLine (f : list N) : string := "f " ++ join " " f ++ nl.

Definition addGeometry (node : SceneNode) (w : Writer) : Writer :=
  let v := worldVertices node in
  let w := foldl (λ w vert, append (vertexLine vert) w) w v in
  let o := vertexOffset w in
  if bool_decide (length v = 4%nat) then
    let w := append ("f " ++ pretty o ++ " " ++ pretty (o+1)%N ++ " "
                       ++ pretty (o+3)%N ++ " " ++ pretty (o+2)%N ++ nl) w in
    {| objOutput := objOutput w; vertexOffset := vertexOffset w + 4 |}
  else
    let faces := cubeFaces o in
    let w := foldl (λ w f, append (faceLine f) w) w faces in
    {| objOutput := objOutput w; vertexOffset := vertexOffset w + 8 |}.

(** The callback of [groupedNodes[groupName].forEach((node, idx) => ...)]. *)
Definition emitNode (node : SceneNode) (idx : nat) (w : Writer) : Writer :=
  let w := append ("o " ++ name node ++ "_" ++ pretty idx ++ nl) w in
  let w := append (materialLine node) w in
  let w := addGeometry node w in
  append nl w.

Fixpoint forEachNode (idx : nat) (ns : list SceneNode) (w : Writer) : Writer :=
  match ns with
  | [] => w
  | node :: rest => forEachNode (S idx) rest (emitNode node idx w)
  end.

(** The state of the loop when it starts on a group. *)
Definition startGroup (groupName : string) : Writer :=
  {| objOutput := "# Group: " ++ groupName ++ nl
                    ++ "# Exported from Gen-Blender Pro" ++ nl ++ nl;
     vertexOffset := 1 |}.

(** The loop over one group, and the text handed to [folder.file]. *)
Definition writeGroup (groupName : string) (ns : list SceneNode) : Writer :=
  forEachNode 0 ns (startGroup groupName).

Definition groupDocument (groupName : string) (ns : list SceneNode) : string :=
  objOutput (writeGroup groupName ns).

(** [Object.keys(groupedNodes).forEach(groupName => ...)]: one folder per
    key, holding the file [`${groupName}.obj`].  The archive is a map from
    folder names, so the order in which the keys are visited leaves no
    trace; [zip.folder] returns a folder for every name, so the early
    [return] of the callback is never taken. *)
Definition zipFolders (groupedNodes : gmap string (list SceneNode))
  : gmap string (string * string) :=
  map_imap (λ groupName ns, Some (groupName ++ ".obj", groupDocument groupName ns))
           groupedNodes.

(** [handleExport(targetGroup?)]: what the call does with the scene it
    reads; [now] is what [Date.now()] returns when the download is named. *)
Definition exportScene (now : N) (targetGroup : option string) (scene : SceneData)
  : ExportOutcome :=
  let nodesToExport := nodesToExport targetGroup (nodes scene) in
  if bool_decide (length nodesToExport = 0%nat) then NothingToExport
  else
    match forEachPush nodesToExport ∅ with
    | None => ExportTypeError
    | Some groupedNodes =>
        let fileName :=
          match targetGroup with
          | Some g => if bool_decide (g = "") then "Full_Project_" ++ pretty now ++ ".zip"
                      else g ++ ".zip"
          | None => "Full_Project_" ++ pretty now ++ ".zip"
          end in
        Download (zipFolders groupedNodes) fileName
    end.

(** The handler as a step of the component: it reads [sceneData] and calls
    no state setter, so the state it leaves is the state it found. *)
Definition handleExport (now : N) (targetGroup : option string) (st : AppState)
  : AppState * ExportOutcome :=
  (st, exportScene now targetGroup (sceneData st)).

End Serialization.

(** ** Run-time primitives used by the ingestion *)

(** What a [throw] carries. [Rejected] is the failure of a remote call. *)
Inductive Thrown : Type :=
  | Error (message : string)
  | SyntaxError
  | TypeError
  | Rejected.

(** A computation that returns or throws. *)
Definition Exc (A : Type) : Type := (Thrown + A)%type.

Definition throw {A : Type} (e : Thrown) : Exc A := inl e.
Definition ret {A : Type} (a : A) : Exc A := inr a.
Definition bind {A B : Type} (m : Exc A) (k : A → Exc B) : Exc B :=
  match m with
  | inl e => inl e
  | inr a => k a
  end.

Notation "x <~ m ;; k" := (bind m (λ x, k))
  (at level 100, m at next level, right associativity).

(** [s.indexOf(c)] and [s.lastIndexOf(c)] for a one-character [c]: the
    position of the first (last) occurrence, [-1] when there is none. *)
Fixpoint indexOf (c : ascii) (s : string) : Z :=
  match s with
  | EmptyString => -1
  | String a rest =>
      if Ascii.eqb a c then 0
      else let r := indexOf c rest in if (r <? 0)%Z then -1 else (1 + r)%Z
  end.

Fixpoint lastIndexOf (c : ascii) (s : string) : Z :=
  match s with
  | EmptyString => -1
  | String a rest =>
      let r := lastIndexOf c rest in
      if (0 <=? r)%Z then (1 + r)%Z
      else if Ascii.eqb a c then 0 else -1
  end.

(** [s.substring(start, end)]: both arguments are clamped to [0, s.length]
    and swapped when [start] is the greater. *)
Definition substring (s : string) (start finish : Z) : string :=
  let len := Z.of_nat (String.length s) in
  let a := Z.max 0 (Z.min start len) in
  let b := Z.max 0 (Z.min finish len) in
  let lo := Z.min a b in
  let hi := Z.max a b in
  String.substring (Z.to_nat lo) (Z.to_nat (hi - lo)) s.

(** [s.split(c)] for a one-character separator. *)
Fixpoint split (c : ascii) (s : string) : list string :=
  match s with
  | EmptyString => [EmptyString]
  | String a rest =>
      if Ascii.eqb a c then EmptyString :: split c rest
      else match split c rest with
           | [] => [String a EmptyString]
           | part :: parts => String a part :: parts
           end
  end.

(** The characters of a string, one string each. *)
Fixpoint chars (s : string) : list string :=
  match s with
  | EmptyString => []
  | String a rest => String a EmptyString :: chars rest
  end.

(** Own property [k] of an object, given as its fields. *)
Fixpoint getField (k : string) (fields : list (string * json)) : option json :=
  match fields with
  | [] => None
  | (k', v) :: rest => if bool_decide (k' = k) then Some v else getField k rest
  end.

(** The fields after [k] is assigned [v]: in place when the key exists, as
    the last key otherwise. *)
Fixpoint setField (k : string) (v : json) (fields : list (string * json))
  : list (string * json) :=
  match fields with
  | [] => [(k, v)]
  | (k', v') :: rest =>
      if bool_decide (k' = k) then (k, v) :: rest else (k', v') :: setField k v rest
  end.

(** [value.k] for the keys read by the service ([nodes], [name],
    [aiReasoning]): a [TypeError] on [null], the field of an object,
    [undefined] ([None]) on everything else. *)
Definition prop (value : json) (k : string) : Exc (option json) :=
  match value with
  | JNull => throw TypeError
  | JObj fields => ret (getField k fields)
  | _ => ret None
  end.

(** The own enumerable properties an object spread copies from a value. *)
Definition ownProps (value : json) : list (string * json) :=
  match value with
  | JObj fields => fields
  | JArr items => imap (λ i item, (pretty i, item)) items
  | JStr s => imap (λ i ch, (pretty i, JStr ch)) (chars s)
  | _ => []
  end.

(** Whether a value counts as true in a condition; [None] is [undefined]. *)
Definition truthy (value : option json) : bool :=
  match value with
  | None => false
  | Some JNull => false
  | Some (JBool b) => b
  | Some (JNum x) => if Req_dec_T x 0 then false else true
  | Some (JStr s) => negb (bool_decide (s = ""))
  | Some (JArr _) => true
  | Some (JObj _) => true
  end.

(** [!s] for an optional string. *)
Definition falsyString (s : option string) : bool :=
  match s with
  | None => true
  | Some s => bool_decide (s = "")
  end.

(** ** The service ([generateSceneFromPrompt], [analyzeTextureImage]) and
    the message handler ([handleSendMessage]) *)

(** The object the service resolves to: [{ text, data? }]. *)
Record GenerationResult : Type := {
  resultText : json;
  resultData : option json
}.

Section Ingestion.

(** [JSON.parse]: [None] is its [SyntaxError]. *)
Variable JSON_parse : string → option json.
(** [JSON.stringify] *)
Variable JSON_stringify : json → string.
(** The string a number turns into under [+] with a string. *)
Variable Number_toString : R → string.
(** [Math.random().toString(36).substr(2, 9)] as drawn for the element at
    an index of the array. *)
Variable randomSuffix : nat → string.
(** [ai.models.generateContent] with the architect's configuration, by the
    [contents] sent: it throws, or resolves to a response whose [text] is
    a string or [undefined]. *)
Variable generateContent : string → Exc (option string).
(** [ai.models.generateContent] of the image model, by the image data. *)
Variable generateImageAnalysis : option string → Exc (option string).
(** The typed reading of a payload that [as SceneData] asserts. *)
Variable asSceneData : json → SceneData.
(** The successive readings of [Date.now()] during one call. *)
Variable Date_now : nat → N.

(** The string a value turns into under [+] with a string; [None] is
    [undefined]. *)
Fixpoint toStr (value : json) : string :=
  match value with
  | JNull => "null"
  | JBool true => "true"
  | JBool false => "false"
  | JNum x => Number_toString x
  | JStr s => s
  | JArr items =>
      String.concat "," (map (λ item, match item with
                                       | JNull => ""
                                       | _ => toStr item
                                       end) items)
  | JObj _ => "[object Object]"
  end.

Definition toStrOpt (value : option json) : string :=
  match value with
  | None => "undefined"
  | Some v => toStr v
  end.

(** [node => ({ ...node, id: node.name + '_' + <random suffix> })] for the
    element at index [i]. *)
Definition withId (i : nat) (node : json) : Exc json :=
  nodeName <~ prop node "name" ;;
  ret (JObj (setField "id" (JStr (toStrOpt nodeName ++ "_" ++ randomSuffix i))
                      (ownProps node))).

Fixpoint mapWithId (i : nat) (items : list json) : Exc (list json) :=
  match items with
  | [] => ret []
  | node :: rest =>
      node' <~ withId i node ;;
      rest' <~ mapWithId (S i) rest ;;
      ret (node' :: rest')
  end.

(** [data.nodes.map(...)]: reading [nodes] off [null] throws, and so does
    calling [map] on anything but an array. *)
Definition nodesWithIds (data : json) : Exc (list json) :=
  nodesValue <~ prop data "nodes" ;;
  match nodesValue with
  | Some (JArr items) => mapWithId 0 items
  | _ => throw TypeError
  end.

(** [`Context (Existing Nodes): ${currentContext}. \n\n Task: ${prompt}`] *)
Definition contentsOf (prompt currentContext : string) : string :=
  "Context (Existing Nodes): " ++ currentContext ++ ". " ++ nl ++ nl
    ++ " Task: " ++ prompt.

(** From the first opening brace to the last closing brace. *)
Definition cleanJson (jsonText : string) : string :=
  let jsonStart := indexOf "{"%char jsonText in
  let jsonEnd := lastIndexOf "}"%char jsonText in
  substring jsonText jsonStart (jsonEnd + 1).

(** The [try] block of [generateSceneFromPrompt]. *)
Definition generateSceneBody (prompt currentContext : string) : Exc GenerationResult :=
  responseText <~ generateContent (contentsOf prompt currentContext) ;;
  if falsyString responseText then throw (Error "Empty response")
  else
    let jsonText := default "" responseText in
    match JSON_parse (cleanJson jsonText) with
    | None => throw SyntaxError
    | Some data =>
        nodesWithIds <~ nodesWithIds data ;;
        aiReasoning <~ prop data "aiReasoning" ;;
        ret {| resultText := if truthy aiReasoning then default JNull aiReasoning
                             else JStr "Architecture calculated.";
               resultData := Some (JObj (setField "nodes" (JArr nodesWithIds)
                                                  (ownProps data))) |}
    end.

(** The text of the [catch] block's result. *)
Definition computationError : string :=
  "Ошибка вычислений. Попробуйте упростить задачу.".

Definition generateSceneFromPrompt (prompt currentContext : string) : GenerationResult :=
  match generateSceneBody prompt currentContext with
  | inr result => result
  | inl _ => {| resultText := JStr computationError; resultData := None |}
  end.

Definition analyzeTextureImage (base64Image : option string) : string :=
  match generateImageAnalysis base64Image with
  | inr responseText =>
      if falsyString responseText then "Analysis complete." else default "" responseText
  | inl _ => "Texture analysis failed. Using text prompt only."
  end.

(** [JSON.stringify(sceneData.nodes.map(n => ({ name, grp, pos, sz })))] *)
Definition vecJson (v : Vec3) : json :=
  let '(x, y, z) := v in JArr [JNum x; JNum y; JNum z].

Definition currentContext (scene : SceneData) : string :=
  JSON_stringify
    (JArr (map (λ n, JObj [ ("name", JStr (name n)); ("grp", JStr (group n));
                            ("pos", vecJson (position n)); ("sz", vecJson (scale n)) ])
               (nodes scene))).

(** The prompt sent for a message: the text, preceded by the analysis of
    the attachment when there is one. *)
Definition finalPromptOf (messageText : string) (attached : option string) : string :=
  if falsyString attached then messageText
  else
    let analysis := analyzeTextureImage (split ","%char (default "" attached) !! 1%nat) in
    "SOURCE MATERIAL: " ++ analysis ++ " " ++ nl ++ nl ++ " USER REQUEST: " ++ messageText.

(** [handleSendMessage(text, attachment?)] as a step of the component.
    Nothing in its [try] block throws (both service functions catch their
    own failures), so the step is the block followed by [finally]. *)
Definition handleSendMessage (messageText : string) (attached : option string)
                             (st : AppState) : AppState :=
  let userMsg := {| msgId := pretty (Date_now 0); role := user; text := JStr messageText;
                    attachment := attached; timestamp := Date_now 1 |} in
  let history1 := (history st ++ [userMsg])%list in
  let history2 :=
    if falsyString attached then history1
    else (history1 ++ [ {| msgId := "analyzing"; role := system;
                           text := JStr "Считываю стиль и материалы с фото...";
                           attachment := None; timestamp := Date_now 2 |} ])%list in
  let finalPrompt := finalPromptOf messageText attached in
  let response := generateSceneFromPrompt finalPrompt (currentContext (sceneData st)) in
  let '(scene', aiResponseText) :=
    match resultData response with
    | Some data =>
        (asSceneData data,
         if truthy (Some (resultText response)) then resultText response
         else JStr "Сцена обновлена.")
    | None => (sceneData st, resultText response)
    end in
  let filtered := filter (λ m, msgId m ≠ "analyzing") history2 in
  {| sceneData := scene';
     history := (filtered ++ [ {| msgId := pretty (Date_now 3); role := ai;
                                  text := aiResponseText; attachment := None;
                                  timestamp := Date_now 4 |} ])%list;
     isProcessing := false |}.

End Ingestion.

(** ** The transform as the specification words it

    The elementary rotations about the coordinate axes, the axis-wise scaling
    by [scale * 0.5] and the translation; [specTransform] chains them in the
    documented order.  These follow the text of the specification and are
    compared with the code's [worldVertices]. *)

Definition rotX (a : R) (p : Vec3) : Vec3 :=
  let '(x, y, z) := p in (x, y * cos a - z * sin a, y * sin a + z * cos a)%R.

Definition rotY (a : R) (p : Vec3) : Vec3 :=
  let '(x, y, z) := p in (x * cos a + z * sin a, y, - x * sin a + z * cos a)%R.

Definition rotZ (a : R) (p : Vec3) : Vec3 :=
  let '(x, y, z) := p in (x * cos a - y * sin a, x * sin a + y * cos a, z)%R.

Definition specScale (scl p : Vec3) : Vec3 :=
  let '(p0, p1, p2) := p in
  let '(s0, s1, s2) := scl in
  (p0 * (s0 * (1/2)), p1 * (s1 * (1/2)), p2 * (s2 * (1/2)))%R.

Definition vadd (p q : Vec3) : Vec3 :=
  let '(p0, p1, p2) := p in
  let '(q0, q1, q2) := q in
  (p0 + q0, p1 + q1, p2 + q2)%R.

Definition specTransform (node : SceneNode) (p : Vec3) : Vec3 :=
  let '(r0, r1, r2) := rotation node in
  vadd (rotZ r2 (rotY r1 (rotX r0 (specScale (scale node) p)))) (position node).

(** ** Notions the properties are stated with *)

(** The test of [addGeometry] on the node's type. *)
Definition isQuadType (t : GeometryType) : bool :=
  bool_decide (t = PLANE) || bool_decide (t = WINDOW).

(** The faces [addGeometry] lists for a vertex array [v] at the offset [o]. *)
Definition emittedFaces (v : list Vec3) (o : N) : list (list N) :=
  if bool_decide (length v = 4%nat) then [quadFace o] else cubeFaces o.

(** Vectors: difference, cross product, dot product. *)
Definition vsub (p q : Vec3) : Vec3 :=
  let '(p0, p1, p2) := p in
  let '(q0, q1, q2) := q in
  (p0 - q0, p1 - q1, p2 - q2)%R.

Definition cross (p q : Vec3) : Vec3 :=
  let '(p0, p1, p2) := p in
  let '(q0, q1, q2) := q in
  (p1 * q2 - p2 * q1, p2 * q0 - p0 * q2, p0 * q1 - p1 * q0)%R.

Definition dot (p q : Vec3) : R :=
  let '(p0, p1, p2) := p in
  let '(q0, q1, q2) := q in
  (p0 * q0 + p1 * q1 + p2 * q2)%R.

(** At the corner [b] of a face, going from [a] to [c], the boundary turns
    counter-clockwise for an observer outside a solid centred at [centre]
    when the normal the turn defines points away from the centre: when its
    product with the direction from the centre to the corner is positive. *)
Definition turn (centre a b c : Vec3) : R :=
  dot (cross (vsub b a) (vsub c b)) (vsub b centre).

Definition turnsOutward (centre a b c : Vec3) : Prop := (0 < turn centre a b c)%R.

(** A quad is counter-clockwise seen from outside when each of its four
    corners turns that way. *)
Definition outwardCCW (centre : Vec3) (quad : list Vec3) : Prop :=
  match quad with
  | [a; b; c; d] =>
      turnsOutward centre a b c ∧ turnsOutward centre b c d ∧
      turnsOutward centre c d a ∧ turnsOutward centre d a b
  | _ => False
  end.

(** The vertex a face index [i] refers to, in a document where the node's
    vertices [vs] were written from the index [o] on. *)
Definition vertexAt (vs : list Vec3) (o i : N) : Vec3 :=
  nth (N.to_nat (i - o)) vs (0, 0, 0)%R.

(** The product of the three scale factors: the sign of the orientation the
    scaling gives the solid. *)
Definition scaleDet (node : SceneNode) : R :=
  let '(s0, s1, s2) := scale node in (s0 * s1 * s2)%R.

(** The material line as the specification words it: a leading [marker] is
    replaced by [token]. *)
Definition replaceLeading (marker token s : string) : string :=
  if String.prefix marker s then token ++ skip (String.length marker) s else s.

(** What the export reads of a node, apart from its group. *)
Definition exportView (node : SceneNode)
  : string * string * bool * Vec3 * Vec3 * Vec3 :=
  (name node, color (material node), isQuadType (type node),
   position node, rotation node, scale node).

(** The folders of the archive an export produced, none when it produced
    no archive. *)
Definition outcomeZip (outcome : ExportOutcome) : gmap string (string * string) :=
  match outcome with
  | Download zip _ => zip
  | _ => ∅
  end.



(** A payload the ingestion can use: present and not empty, parseable
    between its braces, and an object whose [nodes] is an array. *)
Definition hasNodesArray (data : json) : bool :=
  match data with
  | JObj fields =>
      match getField "nodes" fields with
      | Some (JArr _) => true
      | _ => false
      end
  | _ => false
  end.

Definition payloadUsable (JSON_parse : string → option json)
    (responseText : option string) : bool :=
  match responseText with
  | None => false
  | Some jsonText =>
      if bool_decide (jsonText = "") then false
      else match JSON_parse (cleanJson jsonText) with
           | None => false
           | Some data => hasNodesArray data
           end
  end.

(** Lines written one after the other. *)
Fixpoint catLines (l : list string) : string :=
  match l with
  | [] => EmptyString
  | line :: rest => line ++ catLines rest
  end.

(** The number of vertices [addGeometry] writes for a node. *)
Definition vertexCount (node : SceneNode) : N :=
  N.of_nat (length (worldVertices node)).

(** The text one node adds to its document, as a function of its index in
    the group and of the value [o] of the vertex counter when it is reached. *)
Definition nodeBlock (toFixed4 : R → string) (node : SceneNode) (idx : nat) (o : N)
  : string :=
  ("o " ++ name node ++ "_" ++ pretty idx ++ nl)
    ++ materialLine node
    ++ catLines (vertexLine toFixed4 <$> worldVertices node)
    ++ catLines (faceLine <$> emittedFaces (worldVertices node) o)
    ++ nl.

(** The nodes of a list with quad topology, and those with cube topology. *)
Definition quadNodes (ns : list SceneNode) : list SceneNode :=
  filter (λ n, isQuadType (type n) = true) ns.

Definition cubeNodes (ns : list SceneNode) : list SceneNode :=
  filter (λ n, isQuadType (type n) = false) ns.

(** A node for the examples: a name, a group, a colour, a type and a scale;
    at the origin, not rotated. *)
Definition sampleNode (nodeName groupName colour : string) (t : GeometryType)
    (scl : Vec3) : SceneNode :=
  {| id := nodeName ++ "_k3x9q2m1z"; name := nodeName; group := groupName; type := t;
     position := (0, 0, 0)%R; rotation := (0, 0, 0)%R; scale := scl;
     segments := None;
     material := {| color := colour; roughness := 1/2; metalness := 0;
                    opacity := None; transparent := None; emissive := None;
                    emissiveIntensity := None; wireframe := None |};
     shapePath := None |}.

(** The nodes of a list whose normalized group is [g], in encounter order. *)
Definition inGroup (g : string) (ns : list SceneNode) : list SceneNode :=
  filter (λ n, normGroup n = g) ns.

(** No node's normalized group is a name inherited from [Object.prototype]. *)
Definition ordinaryGroups (ns : list SceneNode) : Prop :=
  Forall (λ n, inheritedKey (normGroup n) = false) ns.

(** A formatter for the examples that read no coordinate. *)
Definition plainFixed : R → string := λ _, "0.0000".

(** Two scenes for the examples: one node in the group [Walls]; and the same
    node after a node whose group is named [constructor]. *)
Definition sceneWalls : SceneData :=
  {| nodes := [ sampleNode "Wall_North" "Walls" "#808080" WALL (4, 3, 1/5)%R ];
     environment := city; ambientLightIntensity := 1/2 |}.

Definition sceneConstructor : SceneData :=
  {| nodes := [ sampleNode "Crane" "constructor" "#ffcc00" BOX (1, 1, 1)%R;
                sampleNode "Wall_North" "Walls" "#808080" WALL (4, 3, 1/5)%R ];
     environment := city; ambientLightIntensity := 1/2 |}.

(** Two nodes the export cannot tell apart: same view, same group. *)
Definition sameForExport (a b : SceneNode) : Prop :=
  exportView a = exportView b ∧ group a = group b.

(** The node [Wall_North] of the examples with another id, a tessellation,
    an outline and another surface finish. *)
Definition wallRefinished : SceneNode :=
  {| id := "Wall_North_p0o9i8u7y"; name := "Wall_North"; group := "Walls"; type := WALL;
     position := (0, 0, 0)%R; rotation := (0, 0, 0)%R; scale := (4, 3, 1/5)%R;
     segments := Some 64%R;
     material := {| color := "#808080"; roughness := 1; metalness := 1;
                    opacity := Some (4/5)%R; transparent := Some true;
                    emissive := Some "#ff0000"; emissiveIntensity := Some 2%R;
                    wireframe := Some true |};
     shapePath := Some [ [0; 0]; [1; 0]; [1; 1] ]%R |}.

(** A remote side for the examples.  The model answers with an object that
    has no [nodes], wrapped in prose; the parser knows that one object. *)
Definition replyWithoutNodes : string → Exc (option string) :=
  λ _, ret (Some "Here is the scene: {} Enjoy.").

Definition parseEmptyObject : string → option json :=
  λ s, if bool_decide (s = "{}") then Some (JObj []) else None.

Definition sampleClock : nat → N := λ k, (1700000000000 + N.of_nat k)%N.

Definition sampleState : AppState :=
  {| sceneData := sceneWalls; history := []; isProcessing := false |}.

Definition sceneWallsRefinished : SceneData :=
  {| nodes := [ wallRefinished ]; environment := night; ambientLightIntensity := 1 |}.

(** ** The explorer ([hierarchy] of [App]) *)

Section Explorer.

(** [a.name.localeCompare(b.name)]: negative, zero or positive. *)
Variable localeCompare : string → string → Z.

(** [[...nodes].sort((a, b) => a.name.localeCompare(b.name))].  The sort of
    the runtime is stable; for a comparator that orders the names, what it
    returns is the sorted arrangement that keeps equal names in their
    order, which insertion from the right computes. *)
Fixpoint insertByName (node : SceneNode) (sorted : list SceneNode) : list SceneNode :=
  match sorted with
  | [] => [node]
  | other :: rest =>
      if (0 <? localeCompare (name node) (name other))%Z
      then other :: insertByName node rest
      else node :: other :: rest
  end.

Fixpoint sortedNodes (ns : list SceneNode) : list SceneNode :=
  match ns with
  | [] => []
  | node :: rest => insertByName node (sortedNodes rest)
  end.

(** The memoized [hierarchy]: the sorted nodes pushed into the arrays of
    their groups, by the same three statements as the export's loop; the
    copy into an object with sorted keys holds the same arrays under the
    same keys.  [None] is the [TypeError] of the push. *)
Definition hierarchy (scene : SceneData) : option (gmap string (list SceneNode)) :=
  forEachPush (sortedNodes (nodes scene)) ∅.

End Explorer.

(** ** The viewport ([getMatProps], [DetailedMesh], the status line of
    [Viewport]) *)


(** Whether an optional number counts as true: present and not zero. *)
Definition truthyNumber (x : option R) : bool :=
  match x with
  | Some v => if Req_dec_T v 0 then false else true
  | None => false
  end.


(** [node.segments || 64] *)
Definition effectiveSegments (node : SceneNode) : R :=
  if truthyNumber (segments node) then default 0%R (segments node) else 64%R.

(** [castShadow={node.type !== WINDOW && node.type !== PLANE}] *)
Definition castShadow (node : SceneNode) : bool :=
  negb (bool_decide (type node = WINDOW)) && negb (bool_decide (type node = PLANE)).


(** [nodes.some(n => (n.segments || 64) < 16) ? 'MIXED' : 'HIGH'] *)
Definition polyLabel (scene : SceneData) : string :=
  if existsb (λ n, if Rlt_dec (effectiveSegments n) 16 then true else false) (nodes scene)
  then "MIXED" else "HIGH".

(** ** Further notions for the properties *)

(** The blocks the nodes of a list add to a document, the first being at
    index [idx] with the vertex counter at [o]. *)
Fixpoint blocksFrom (toFixed4 : R → string) (idx : nat) (o : N) (ns : list SceneNode)
  : list string :=
  match ns with
  | [] => []
  | node :: rest =>
      nodeBlock toFixed4 node idx o
        :: blocksFrom toFixed4 (S idx) (o + vertexCount node) rest
  end.

(** The squared distance between two points. *)
Definition distSq (p q : Vec3) : R := dot (vsub p q) (vsub p q).

(** A node without a group next to one whose group is spelled out. *)
Definition sceneLoose : SceneData :=
  {| nodes := [ sampleNode "Rock" "" "#555555" ICOSAHEDRON (1, 1, 1)%R;
                sampleNode "Lake" "Ungrouped" "#0000ff" PLANE (6, 6, 1)%R ];
     environment := forest; ambientLightIntensity := 1/2 |}.

(** [node.name] for an element of the payload's array that is not [null]. *)
Definition nameOf (node : json) : option json :=
  match node with
  | JObj fields => getField "name" fields
  | _ => None
  end.

(** What the callback of [data.nodes.map] returns for an element that is
    not [null], at index [i]. *)
Definition identified (Number_toString : R → string) (randomSuffix : nat → string)
    (i : nat) (node : json) : json :=
  JObj (setField "id"
          (JStr (toStrOpt Number_toString (nameOf node) ++ "_" ++ randomSuffix i))
          (ownProps node)).

(** A payload for the examples: two nodes, one of them [null]. *)
Definition fieldsWithNull : list (string * json) :=
  [ ("nodes", JArr [ JObj [ ("name", JStr "Tower") ]; JNull ]);
    ("environment", JStr "night") ].

(** A payload for the examples: one node and a reasoning. *)
Definition fieldsTower : list (string * json) :=
  [ ("aiReasoning", JStr "One tower.");
    ("nodes", JArr [ JObj [ ("name", JStr "Tower"); ("group", JStr "Castle") ] ]) ].

(** The double quote, and the two payloads as the texts they parse from. *)
Definition dq : string := String (ascii_of_nat 34) "".

Definition textWithNull : string :=
  "{" ++ dq ++ "nodes" ++ dq ++ ":[{" ++ dq ++ "name" ++ dq ++ ":" ++ dq ++ "Tower" ++ dq
    ++ "},null]," ++ dq ++ "environment" ++ dq ++ ":" ++ dq ++ "night" ++ dq ++ "}".

Definition textTower : string :=
  "{" ++ dq ++ "aiReasoning" ++ dq ++ ":" ++ dq ++ "One tower." ++ dq ++ ","
    ++ dq ++ "nodes" ++ dq ++ ":[{" ++ dq ++ "name" ++ dq ++ ":" ++ dq ++ "Tower" ++ dq ++ ","
    ++ dq ++ "group" ++ dq ++ ":" ++ dq ++ "Castle" ++ dq ++ "}]}".

(** A parser for the examples: it knows these two texts. *)
Definition parseSamples : string → option json :=
  λ s, if bool_decide (s = textWithNull) then Some (JObj fieldsWithNull)
       else if bool_decide (s = textTower) then Some (JObj fieldsTower)
       else None.

Definition replyWithNull : string → Exc (option string) :=
  λ _, ret (Some ("Sure. " ++ textWithNull)).


(** A remote side that fails, and a suffix source, for the examples. *)
Definition rejectingCall {A : Type} : A → Exc (option string) := λ _, throw Rejected.

Definition fixedSuffix : nat → string := λ _, "k3x9q2m1z".

(** The message of the user and the reply, as [handleSendMessage] builds
    them from the readings of the clock. *)
Definition userMessage (Date_now : nat → N) (messageText : string)
    (attached : option string) : ChatMessage :=
  {| msgId := pretty (Date_now 0%nat); role := user; text := JStr messageText;
     attachment := attached; timestamp := Date_now 1%nat |}.

Definition replyMessage (Date_now : nat → N) (replyText : json) : ChatMessage :=
  {| msgId := pretty (Date_now 3%nat); role := ai; text := replyText;
     attachment := None; timestamp := Date_now 4%nat |}.

(** The order of names by length, a comparator for the examples. *)
Definition compareLength (a b : string) : Z :=
  (Z.of_nat (String.length a) - Z.of_nat (String.length b))%Z.

(** Sorted for a comparator: no name is followed, anywhere later, by a name
    that the comparator puts before it. *)
Definition inNameOrder (localeCompare : string → string → Z) (ns : list SceneNode) : Prop :=
  StronglySorted (λ a b, (localeCompare (name a) (name b) <= 0)%Z) ns.

(** * Properties *)

(** ** Text *)

Lemma String_app_cons (ch : ascii) (a b : string) :
  String ch a ++ b = String ch (a ++ b).
Proof. reflexivity. Qed.

Lemma String_app_assoc (a b c : string) : (a ++ b) ++ c = a ++ (b ++ c).
Proof.
  induction a as [|ch a IH]; [ reflexivity | ].
  rewrite !String_app_cons. by rewrite IH.
Qed.

Lemma String_app_nil_r (a : string) : a ++ "" = a.
Proof.
  induction a as [|ch a IH]; [ reflexivity | ].
  rewrite String_app_cons. by rewrite IH.
Qed.

Lemma foldl_append {A : Type} (line : A → string) (l : list A) (w : Writer) :
  foldl (λ w x, append (line x) w) w l
  = {| objOutput := objOutput w ++ catLines (line <$> l);
       vertexOffset := vertexOffset w |}.
Proof.
  revert w. induction l as [|x l IH]; intros w; cbn.
  - rewrite String_app_nil_r. by destruct w.
  - rewrite IH. cbn. by rewrite String_app_assoc.
Qed.

(** ** The transform *)

(** Equality of two vectors, component by component, in the field of reals. *)
Ltac vec3_split :=
  apply pair_equal_spec; split; [ apply pair_equal_spec; split | ].
Ltac vec3_ring := cbn; vec3_split; ring.

Lemma rotatePoint_elementary (r0 r1 r2 : R) (p : Vec3) :
  rotatePoint (r0, r1, r2) p = rotZ r2 (rotY r1 (rotX r0 p)).
Proof. destruct p as [[x y] z]. reflexivity. Qed.

Lemma worldVertices_specTransform (node : SceneNode) :
  worldVertices node = map (specTransform node) (localVertices (type node)).
Proof.
  unfold worldVertices. rewrite !map_map. apply map_ext. intros [[p0 p1] p2].
  unfold specTransform.
  destruct (rotation node) as [[r0 r1] r2] eqn:Hrot.
  rewrite rotatePoint_elementary.
  destruct (scale node) as [[s0 s1] s2], (position node) as [[t0 t1] t2].
  vec3_ring.
Qed.

(** C1: the exported world-space vertices of a node are its local vertices,
    each scaled axis-wise by [scale * 0.5], then rotated about X by
    [rotation[0]], about Y by [rotation[1]], about Z by [rotation[2]] (each
    on the already rotated point), then translated by adding [position];
    these are the vertices whose coordinates [addGeometry] prints. *)
Theorem exported_vertices_transform (toFixed4 : R → string) (node : SceneNode) (w : Writer) :
  worldVertices node = map (specTransform node) (localVertices (type node))
  ∧ (∀ (p : Vec3) (r0 r1 r2 : R), rotation node = (r0, r1, r2) →
       specTransform node p
       = vadd (rotZ r2 (rotY r1 (rotX r0 (specScale (scale node) p)))) (position node))
  ∧ foldl (λ w vert, append (vertexLine toFixed4 vert) w) w (worldVertices node)
    = {| objOutput := objOutput w
                        ++ catLines (vertexLine toFixed4
                                       <$> map (specTransform node) (localVertices (type node)));
         vertexOffset := vertexOffset w |}.
Proof.
  split; [ apply worldVertices_specTransform | ]. split.
  - intros p r0 r1 r2 Hrot. unfold specTransform. by rewrite Hrot.
  - rewrite foldl_append. by rewrite worldVertices_specTransform.
Qed.

(** Each elementary rotation is undone by the rotation about the same axis
    by the negated angle. *)
Lemma unit_circle (a x : R) : (x * (cos a * cos a) + x * (sin a * sin a))%R = x.
Proof.
  pose proof (sin2_cos2 a) as H. unfold Rsqr in H.
  replace (x * (cos a * cos a) + x * (sin a * sin a))%R
    with (x * (sin a * sin a + cos a * cos a))%R by ring.
  rewrite H. ring.
Qed.

(** A component that is [x * cos² + x * sin²] up to the ring laws. *)
Ltac by_unit_circle a :=
  first [ reflexivity
        | match goal with
          | |- _ = ?x => etransitivity; [ | exact (unit_circle a x) ]; ring
          end ].

Lemma rotX_neg (a : R) (p : Vec3) : rotX (- a) (rotX a p) = p.
Proof.
  destruct p as [[x y] z]. unfold rotX. rewrite cos_neg, sin_neg.
  vec3_split; by_unit_circle a.
Qed.

Lemma rotY_neg (a : R) (p : Vec3) : rotY (- a) (rotY a p) = p.
Proof.
  destruct p as [[x y] z]. unfold rotY. rewrite cos_neg, sin_neg.
  vec3_split; by_unit_circle a.
Qed.

Lemma rotZ_neg (a : R) (p : Vec3) : rotZ (- a) (rotZ a p) = p.
Proof.
  destruct p as [[x y] z]. unfold rotZ. rewrite cos_neg, sin_neg.
  vec3_split; by_unit_circle a.
Qed.

(** C9: the rotation of the export (X, then Y, then Z) followed by the
    elementary rotations by the negated angles in the reverse order (Z, then
    Y, then X) gives back the point, exactly, over the reals. *)
Theorem rotation_round_trip (r0 r1 r2 : R) (p : Vec3) :
  rotX (- r0) (rotY (- r1) (rotZ (- r2) (rotatePoint (r0, r1, r2) p))) = p.
Proof.
  rewrite rotatePoint_elementary.
  rewrite rotZ_neg, rotY_neg, rotX_neg. reflexivity.
Qed.

(** ** Geometry synthesis *)

Lemma localVertices_quad (t : GeometryType) :
  isQuadType t = true →
  localVertices t = [ (-1, -1, 0); (1, -1, 0); (-1, 1, 0); (1, 1, 0) ]%R.
Proof. unfold localVertices, isQuadType. by intros ->. Qed.

Lemma localVertices_cube (t : GeometryType) :
  isQuadType t = false →
  localVertices t = [ (-1, -1, 1); (1, -1, 1); (-1, 1, 1); (1, 1, 1);
                      (-1, -1, -1); (1, -1, -1); (-1, 1, -1); (1, 1, -1) ]%R.
Proof. unfold localVertices, isQuadType. by intros ->. Qed.

Lemma isQuadType_spec (t : GeometryType) :
  isQuadType t = true ↔ t = PLANE ∨ t = WINDOW.
Proof.
  unfold isQuadType. rewrite orb_true_iff, !bool_decide_eq_true. reflexivity.
Qed.

Lemma length_worldVertices (node : SceneNode) :
  length (worldVertices node) = if isQuadType (type node) then 4%nat else 8%nat.
Proof.
  unfold worldVertices. rewrite !length_map.
  destruct (isQuadType (type node)) eqn:E.
  - by rewrite localVertices_quad.
  - by rewrite localVertices_cube.
Qed.

Lemma vertexCount_topology (node : SceneNode) :
  vertexCount node = if isQuadType (type node) then 4%N else 8%N.
Proof.
  unfold vertexCount. rewrite length_worldVertices.
  by destruct (isQuadType (type node)).
Qed.

Lemma emittedFaces_topology (node : SceneNode) (o : N) :
  emittedFaces (worldVertices node) o
  = if isQuadType (type node) then [quadFace o] else cubeFaces o.
Proof.
  unfold emittedFaces. rewrite length_worldVertices.
  by destruct (isQuadType (type node)).
Qed.

(** The eight vertices of the cube branch are the corners (±1, ±1, ±1). *)
Lemma cube_corners (t : GeometryType) (x y z : R) :
  isQuadType t = false →
  (x, y, z) ∈ localVertices t ↔
  ((x = 1 ∨ x = -1) ∧ (y = 1 ∨ y = -1) ∧ (z = 1 ∨ z = -1))%R.
Proof.
  intros Ht. rewrite (localVertices_cube t Ht). split.
  - intros Hin. repeat (apply elem_of_cons in Hin as [Hin|Hin]);
      [ injection Hin as -> -> ->; auto .. | by apply elem_of_nil in Hin ].
  - intros [[-> | ->] [[-> | ->] [-> | ->]]];
      repeat first [ by apply list_elem_of_here | apply list_elem_of_further ].
Qed.

Lemma cube_corners_distinct (t : GeometryType) :
  isQuadType t = false → NoDup (localVertices t).
Proof.
  intros Ht. rewrite (localVertices_cube t Ht).
  repeat (apply NoDup_cons; split;
          [ intros Hin; repeat (apply elem_of_cons in Hin as [Hin|Hin]);
            [ injection Hin; intros; lra .. | by apply elem_of_nil in Hin ] | ]).
  apply NoDup_nil_2.
Qed.

Section SerializationFacts.

Variable toFixed4 : R → string.

Lemma quad_literal (o : N) :
  "f " ++ pretty o ++ " " ++ pretty (o + 1)%N ++ " "
    ++ pretty (o + 3)%N ++ " " ++ pretty (o + 2)%N ++ nl
  = faceLine (quadFace o).
Proof.
  unfold faceLine, join, quadFace. cbn.
  by rewrite !String_app_assoc.
Qed.

(** What [addGeometry] does to the two variables. *)
Lemma addGeometry_eq (node : SceneNode) (w : Writer) :
  addGeometry toFixed4 node w
  = {| objOutput := objOutput w
                      ++ catLines (vertexLine toFixed4 <$> worldVertices node)
                      ++ catLines (faceLine <$> emittedFaces (worldVertices node)
                                                             (vertexOffset w));
       vertexOffset := vertexOffset w + vertexCount node |}.
Proof.
  unfold addGeometry, emittedFaces, vertexCount.
  rewrite foldl_append. cbn [objOutput vertexOffset].
  case_bool_decide as Hlen.
  - rewrite Hlen, quad_literal. cbn. f_equal.
    by rewrite String_app_nil_r, String_app_assoc.
  - rewrite foldl_append. cbn [objOutput vertexOffset]. f_equal.
    + by rewrite String_app_assoc.
    + pose proof (length_worldVertices node) as H.
      destruct (isQuadType (type node)); [ done | by rewrite H ].
Qed.

Lemma emitNode_eq (node : SceneNode) (idx : nat) (w : Writer) :
  emitNode toFixed4 node idx w
  = {| objOutput := objOutput w ++ nodeBlock toFixed4 node idx (vertexOffset w);
       vertexOffset := vertexOffset w + vertexCount node |}.
Proof.
  unfold emitNode, nodeBlock. rewrite addGeometry_eq. unfold append. cbn.
  f_equal. by rewrite !String_app_assoc.
Qed.

End SerializationFacts.

Section ExportProperties.

Variable toFixed4 : R → string.

(** C2: the geometry synthesized for a node has one of two topologies.
    For the types plane and window: the four vertices (-1,-1,0), (1,-1,0),
    (-1,1,0), (1,1,0) and one face of four indices.  For every other type
    of the enumeration: eight distinct vertices, the corners (±1,±1,±1),
    and six faces of four indices each.  [addGeometry] writes these
    vertices, transformed, and these faces. *)
Theorem synthesized_topology (node : SceneNode) (w : Writer) :
  (type node = PLANE ∨ type node = WINDOW →
     localVertices (type node) = [ (-1, -1, 0); (1, -1, 0); (-1, 1, 0); (1, 1, 0) ]%R
     ∧ emittedFaces (worldVertices node) (vertexOffset w)
       = [ [vertexOffset w; vertexOffset w + 1; vertexOffset w + 3; vertexOffset w + 2] ]%N)
  ∧ (type node ≠ PLANE → type node ≠ WINDOW →
       length (localVertices (type node)) = 8%nat
       ∧ NoDup (localVertices (type node))
       ∧ (∀ x y z : R, (x, y, z) ∈ localVertices (type node) ↔
                        ((x = 1 ∨ x = -1) ∧ (y = 1 ∨ y = -1) ∧ (z = 1 ∨ z = -1))%R)
       ∧ emittedFaces (worldVertices node) (vertexOffset w) = cubeFaces (vertexOffset w)
       ∧ length (cubeFaces (vertexOffset w)) = 6%nat
       ∧ Forall (λ f, length f = 4%nat) (cubeFaces (vertexOffset w)))
  ∧ objOutput (addGeometry toFixed4 node w)
    = objOutput w
        ++ catLines (vertexLine toFixed4 <$> (specTransform node <$> localVertices (type node)))
        ++ catLines (faceLine <$> emittedFaces (worldVertices node) (vertexOffset w)).
Proof.
  split; [ | split ].
  - intros Ht. apply isQuadType_spec in Ht.
    rewrite emittedFaces_topology, Ht. split; [ by apply localVertices_quad | done ].
  - intros Hp Hw.
    assert (isQuadType (type node) = false) as Ht.
    { destruct (isQuadType (type node)) eqn:E; [ | done ].
      apply isQuadType_spec in E as [E|E]; [ by destruct Hp | by destruct Hw ]. }
    rewrite emittedFaces_topology, Ht.
    split; [ by rewrite localVertices_cube | ].
    split; [ by apply cube_corners_distinct | ].
    split; [ intros x y z; by apply cube_corners | ].
    split; [ done | ]. split; [ done | ].
    unfold cubeFaces. by repeat constructor.
  - rewrite addGeometry_eq. cbn [objOutput]. by rewrite worldVertices_specTransform.
Qed.

Lemma forEachNode_app (idx : nat) (pre post : list SceneNode) (w : Writer) :
  forEachNode toFixed4 idx (pre ++ post)%list w
  = forEachNode toFixed4 (idx + length pre) post (forEachNode toFixed4 idx pre w).
Proof.
  revert idx w. induction pre as [|n pre IH]; intros idx w; cbn.
  - by rewrite Nat.add_0_r.
  - rewrite IH. by rewrite Nat.add_succ_r.
Qed.

Lemma forEachNode_offset (idx : nat) (ns : list SceneNode) (w : Writer) :
  vertexOffset (forEachNode toFixed4 idx ns w)
  = (vertexOffset w + 8 * N.of_nat (length (cubeNodes ns))
                    + 4 * N.of_nat (length (quadNodes ns)))%N.
Proof.
  revert idx w. induction ns as [|n ns IH]; intros idx w.
  - cbn. lia.
  - cbn [forEachNode]. rewrite IH, emitNode_eq. cbn [vertexOffset].
    rewrite vertexCount_topology. unfold cubeNodes, quadNodes.
    rewrite !filter_cons. destruct (isQuadType (type n)) eqn:E.
    + rewrite decide_False by done. rewrite decide_True by done. cbn [length]. lia.
    + rewrite decide_True by done. rewrite decide_False by done. cbn [length]. lia.
Qed.

Lemma face_indices_in_range (node : SceneNode) (o : N) (f : list N) (i : N) :
  f ∈ emittedFaces (worldVertices node) o → i ∈ f →
  (o <= i < o + vertexCount node)%N.
Proof.
  rewrite emittedFaces_topology, vertexCount_topology.
  destruct (isQuadType (type node)); unfold quadFace, cubeFaces; intros Hf Hi.
  - apply list_elem_of_singleton in Hf as ->.
    repeat (apply elem_of_cons in Hi as [->|Hi]; [ lia | ]).
    by apply elem_of_nil in Hi.
  - repeat (apply elem_of_cons in Hf as [->|Hf];
            [ repeat (apply elem_of_cons in Hi as [->|Hi]; [ lia | ]);
              by apply elem_of_nil in Hi | ]).
    by apply elem_of_nil in Hf.
Qed.

(** C4: in every group document the vertex counter starts at 1; a node
    reached when the counter is [o] gets the faces of its topology with
    every index offset by [o] (within [o, o + count)), and leaves the
    counter at [o] plus its vertex count, 4 for a quad and 8 for a cube;
    the node after a prefix of the group is reached with the counter the
    prefix leaves; and after N cube nodes and M quad nodes the counter is
    1 + 8N + 4M. *)
Theorem vertex_counter (groupName : string) (ns : list SceneNode) :
  vertexOffset (startGroup groupName) = 1%N
  ∧ (∀ (node : SceneNode) (idx : nat) (w : Writer),
       vertexOffset (emitNode toFixed4 node idx w)
       = (vertexOffset w + (if isQuadType (type node) then 4 else 8))%N
       ∧ objOutput (emitNode toFixed4 node idx w)
         = objOutput w ++ ("o " ++ name node ++ "_" ++ pretty idx ++ nl)
             ++ materialLine node
             ++ catLines (vertexLine toFixed4 <$> worldVertices node)
             ++ catLines (faceLine <$> (if isQuadType (type node)
                                        then [quadFace (vertexOffset w)]
                                        else cubeFaces (vertexOffset w)))
             ++ nl
       ∧ (∀ (f : list N) (i : N),
            f ∈ (if isQuadType (type node)
                 then [quadFace (vertexOffset w)] else cubeFaces (vertexOffset w)) →
            i ∈ f →
            (vertexOffset w <= i < vertexOffset (emitNode toFixed4 node idx w))%N))
  ∧ (∀ (pre post : list SceneNode) (node : SceneNode),
       ns = (pre ++ node :: post)%list →
       writeGroup toFixed4 groupName ns
       = forEachNode toFixed4 (S (length pre)) post
           (emitNode toFixed4 node (length pre) (writeGroup toFixed4 groupName pre)))
  ∧ vertexOffset (writeGroup toFixed4 groupName ns)
    = (1 + 8 * N.of_nat (length (cubeNodes ns))
         + 4 * N.of_nat (length (quadNodes ns)))%N.
Proof.
  split; [ reflexivity | ]. split; [ | split ].
  - intros node idx w. rewrite emitNode_eq. cbn [vertexOffset objOutput].
    rewrite vertexCount_topology. split; [ done | ]. split.
    + unfold nodeBlock. by rewrite emittedFaces_topology.
    + intros f i Hf Hi. rewrite <- emittedFaces_topology in Hf.
      pose proof (face_indices_in_range node (vertexOffset w) f i Hf Hi) as H.
      by rewrite vertexCount_topology in H.
  - intros pre post node ->. unfold writeGroup.
    rewrite forEachNode_app. cbn [forEachNode]. by rewrite Nat.add_0_l.
  - unfold writeGroup. rewrite forEachNode_offset. reflexivity.
Qed.

(** C6: when no node is left after the optional group filter, the export
    does nothing: no document, no archive, no download, and the state of
    the component is the one it found. *)
Theorem empty_export_is_noop (now : N) (targetGroup : option string) (st : AppState) :
  nodesToExport targetGroup (nodes (sceneData st)) = [] →
  handleExport toFixed4 now targetGroup st = (st, NothingToExport).
Proof.
  intros Hempty. unfold handleExport, exportScene. by rewrite Hempty.
Qed.

End ExportProperties.

(** ** The material line *)

Lemma indexOf_ge (c : ascii) (s : string) : (-1 <= indexOf c s)%Z.
Proof.
  induction s as [|a s IH]; cbn; [ lia | ].
  destruct (Ascii.eqb a c); [ lia | ]. destruct (indexOf c s <? 0)%Z eqn:E; lia.
Qed.

Lemma indexOf_cons_absent (c a : ascii) (s : string) :
  indexOf c (String a s) = (-1)%Z → a ≠ c ∧ indexOf c s = (-1)%Z.
Proof.
  cbn. destruct (Ascii.eqb a c) eqn:E; [ lia | ].
  apply Ascii.eqb_neq in E. pose proof (indexOf_ge c s).
  destruct (indexOf c s <? 0)%Z eqn:E'; [ apply Z.ltb_lt in E' | ]; intros; split; try done; lia.
Qed.

Lemma prefix_marker (a : ascii) (s : string) :
  String.prefix "#" (String a s) = bool_decide ("#"%char = a).
Proof.
  change (String.prefix "#" (String a s))
    with (if ascii_dec "#"%char a then String.prefix "" s else false).
  destruct (ascii_dec "#" a) as [Heq|Hne].
  - rewrite bool_decide_eq_true_2 by done. by destruct s.
  - by rewrite bool_decide_eq_false_2.
Qed.

Lemma String_replace_at_marker (token pre post : string) :
  indexOf "#" pre = (-1)%Z →
  String_replace "#" token (pre ++ "#" ++ post) = pre ++ token ++ post.
Proof.
  induction pre as [|a pre IH]; intros Habsent.
  - change ("" ++ "#" ++ post) with (String "#" post).
    cbn [String_replace]. rewrite prefix_marker.
    by rewrite bool_decide_eq_true_2.
  - apply indexOf_cons_absent in Habsent as [Hne Habsent].
    rewrite String_app_cons. cbn [String_replace]. rewrite prefix_marker.
    rewrite bool_decide_eq_false_2 by done. by rewrite IH.
Qed.

Lemma String_replace_no_marker (token s : string) :
  indexOf "#" s = (-1)%Z → String_replace "#" token s = s.
Proof.
  induction s as [|a s IH]; intros Habsent.
  - reflexivity.
  - apply indexOf_cons_absent in Habsent as [Hne Habsent].
    cbn [String_replace]. rewrite prefix_marker.
    rewrite bool_decide_eq_false_2 by done. by rewrite IH.
Qed.

(** C8, as the code has it: the material line is [usemtl ] followed by the
    colour in which the first [#], wherever it stands, is replaced by
    [Mat_].  So a leading [#] is replaced by [Mat_]; a colour without [#] is
    written as it is; and a [#] that is not leading is replaced as well.
    The line is the second one of the text a node adds to its document. *)
Theorem material_line_first_marker (toFixed4 : R → string) (node : SceneNode) :
  (∀ rest : string, color (material node) = "#" ++ rest →
     materialLine node = "usemtl " ++ "Mat_" ++ rest ++ nl)
  ∧ (indexOf "#" (color (material node)) = (-1)%Z →
     materialLine node = "usemtl " ++ color (material node) ++ nl)
  ∧ (∀ pre post : string, color (material node) = pre ++ "#" ++ post →
       indexOf "#" pre = (-1)%Z →
       materialLine node = "usemtl " ++ pre ++ "Mat_" ++ post ++ nl)
  ∧ (∀ (idx : nat) (w : Writer),
       objOutput (emitNode toFixed4 node idx w)
       = objOutput w ++ ("o " ++ name node ++ "_" ++ pretty idx ++ nl)
           ++ materialLine node
           ++ catLines (vertexLine toFixed4 <$> worldVertices node)
           ++ catLines (faceLine <$> emittedFaces (worldVertices node) (vertexOffset w))
           ++ nl).
Proof.
  unfold materialLine. repeat split.
  - intros rest ->.
    change ("#" ++ rest) with ("" ++ "#" ++ rest).
    by rewrite String_replace_at_marker.
  - intros Habsent. by rewrite String_replace_no_marker.
  - intros pre post -> Habsent. rewrite String_replace_at_marker by done.
    by rewrite !String_app_assoc.
  - intros idx w. by rewrite emitNode_eq.
Qed.

(** C8, as the specification words it, fails: for the colour [a#b], which has no
    leading [#], the line written is [usemtl aMat_b], not [usemtl a#b]. *)
Lemma material_line_not_leading_only :
  materialLine (sampleNode "Lamp" "Room" "a#b" BOX (1, 1, 1)%R)
  = "usemtl aMat_b" ++ nl
  ∧ materialLine (sampleNode "Lamp" "Room" "a#b" BOX (1, 1, 1)%R)
    ≠ "usemtl " ++ replaceLeading "#" "Mat_" "a#b" ++ nl.
Proof.
  split; [ reflexivity | ]. lazy. discriminate.
Qed.

(** ** Grouping *)

Lemma pushNode_lookup (m : gmap string (list SceneNode)) (node : SceneNode) :
  inheritedKey (normGroup node) = false →
  ∃ m', pushNode m node = Some m'
        ∧ ∀ g, m' !! g = if decide (normGroup node = g)
                         then Some (default [] (m !! g) ++ [node])%list
                         else m !! g.
Proof.
  intros Hord. unfold pushNode. rewrite Hord.
  eexists. split; [ reflexivity | ]. intros g.
  destruct (decide (normGroup node = g)) as [<-|Hne].
  - rewrite lookup_alter_eq.
    destruct (m !! normGroup node) as [arr|] eqn:E.
    + by rewrite E.
    + by rewrite lookup_insert_eq.
  - rewrite lookup_alter_ne by done.
    destruct (m !! normGroup node); [ done | by rewrite lookup_insert_ne ].
Qed.

Lemma forEachPush_lookup (ns : list SceneNode) (m : gmap string (list SceneNode)) :
  ordinaryGroups ns →
  ∃ m', forEachPush ns m = Some m'
        ∧ ∀ g, m' !! g = match m !! g with
                         | Some arr => Some (arr ++ inGroup g ns)%list
                         | None => match inGroup g ns with
                                   | [] => None
                                   | l => Some l
                                   end
                         end.
Proof.
  revert m. induction ns as [|n ns IH]; intros m Hord.
  - exists m. split; [ reflexivity | ]. intros g. cbn.
    destruct (m !! g); [ by rewrite app_nil_r | done ].
  - apply Forall_cons in Hord as [Hn Hord].
    destruct (pushNode_lookup m n Hn) as (m1 & Hpush & Hm1).
    destruct (IH m1 Hord) as (m' & Hrest & Hm').
    exists m'. split; [ cbn; by rewrite Hpush | ].
    intros g. rewrite Hm', Hm1. unfold inGroup. rewrite filter_cons.
    destruct (decide (normGroup n = g)) as [Heq|Hne].
    + destruct (m !! g); cbn; [ by rewrite <- app_assoc | done ].
    + done.
Qed.

Lemma forEachPush_inherited (ns : list SceneNode) (m : gmap string (list SceneNode)) :
  ¬ ordinaryGroups ns → forEachPush ns m = None.
Proof.
  revert m. induction ns as [|n ns IH]; intros m Hnot.
  - destruct Hnot. constructor.
  - cbn. unfold pushNode at 1.
    destruct (inheritedKey (normGroup n)) eqn:Hn; [ done | ].
    cbn. apply IH. intros Hord. apply Hnot. by constructor.
Qed.

Lemma inGroup_inGroup (g g' : string) (ns : list SceneNode) :
  inGroup g (inGroup g' ns) = if decide (g = g') then inGroup g' ns else [].
Proof.
  unfold inGroup. induction ns as [|n ns IH].
  - by destruct (decide (g = g')).
  - rewrite (filter_cons _ n ns).
    destruct (decide (normGroup n = g')) as [Hn|Hn]; [ | done ].
    rewrite filter_cons, IH.
    destruct (decide (g = g')) as [->|Hne].
    + by rewrite decide_True.
    + rewrite decide_False; [ done | congruence ].
Qed.

Lemma ordinaryGroups_inGroup (g : string) (ns : list SceneNode) :
  ordinaryGroups ns → ordinaryGroups (inGroup g ns).
Proof.
  unfold ordinaryGroups, inGroup. intros Hord.
  apply Forall_forall. intros n Hin.
  apply list_elem_of_filter in Hin as [_ Hin].
  by eapply Forall_forall in Hord.
Qed.

Section GroupExport.

Variable toFixed4 : R → string.

Lemma zipFolders_lookup (m : gmap string (list SceneNode)) (g : string) :
  zipFolders toFixed4 m !! g
  = (λ ns, (g ++ ".obj", groupDocument toFixed4 g ns)) <$> (m !! g).
Proof.
  unfold zipFolders. rewrite map_lookup_imap. by destruct (m !! g).
Qed.

(** The full export of a scene whose groups are ordinary names. *)
Lemma exportScene_full (now : N) (scene : SceneData) :
  ordinaryGroups (nodes scene) →
  ∀ g, outcomeZip (exportScene toFixed4 now None scene) !! g
       = match inGroup g (nodes scene) with
         | [] => None
         | l => Some (g ++ ".obj", groupDocument toFixed4 g l)
         end.
Proof.
  intros Hord g. unfold exportScene. cbn [nodesToExport].
  case_bool_decide as Hlen.
  - apply length_zero_iff_nil in Hlen. by rewrite Hlen.
  - destruct (forEachPush_lookup (nodes scene) ∅ Hord) as (m & -> & Hm).
    cbn [outcomeZip]. rewrite zipFolders_lookup, Hm, lookup_empty.
    by destruct (inGroup g (nodes scene)).
Qed.

(** The export of one group. *)
Lemma exportScene_filtered (now : N) (scene : SceneData) (g : string) :
  g ≠ "" → ordinaryGroups (nodes scene) →
  exportScene toFixed4 now (Some g) scene
  = match inGroup g (nodes scene) with
    | [] => NothingToExport
    | l => Download {[ g := (g ++ ".obj", groupDocument toFixed4 g l) ]} (g ++ ".zip")
    end.
Proof.
  intros Hg Hord. unfold exportScene. cbn [nodesToExport].
  rewrite !(bool_decide_eq_false_2 (g = "")) by done.
  fold (inGroup g (nodes scene)).
  case_bool_decide as Hlen.
  - apply length_zero_iff_nil in Hlen. by rewrite Hlen.
  - destruct (forEachPush_lookup (inGroup g (nodes scene)) ∅
                (ordinaryGroups_inGroup g _ Hord)) as (m & -> & Hm).
    destruct (inGroup g (nodes scene)) as [|n l] eqn:El; [ done | ].
    f_equal. apply map_eq. intros g'.
    rewrite zipFolders_lookup, Hm, lookup_empty. rewrite <- El, inGroup_inGroup.
    destruct (decide (g' = g)) as [->|Hne].
    + rewrite lookup_singleton_eq. by rewrite El.
    + by rewrite lookup_singleton_ne.
Qed.


End GroupExport.

Lemma normGroup_sampleNode (nodeName groupName colour : string) (t : GeometryType)
    (scl : Vec3) :
  groupName ≠ "" → normGroup (sampleNode nodeName groupName colour t scl) = groupName.
Proof. intros Hg. unfold normGroup. cbn [group sampleNode]. by rewrite bool_decide_eq_false_2. Qed.

Lemma inGroup_singleton (g : string) (n : SceneNode) :
  inGroup g [n] = if decide (normGroup n = g) then [n] else [].
Proof. unfold inGroup. by rewrite filter_cons, filter_nil. Qed.



(** ** What the export reads of a node *)

Lemma localVertices_isQuadType (t : GeometryType) :
  localVertices t
  = if isQuadType t
    then [ (-1, -1, 0); (1, -1, 0); (-1, 1, 0); (1, 1, 0) ]%R
    else [ (-1, -1, 1); (1, -1, 1); (-1, 1, 1); (1, 1, 1);
           (-1, -1, -1); (1, -1, -1); (-1, 1, -1); (1, 1, -1) ]%R.
Proof. reflexivity. Qed.

Lemma worldVertices_view (a b : SceneNode) :
  exportView a = exportView b → worldVertices a = worldVertices b.
Proof.
  unfold exportView. intros H. injection H as _ _ Ht Hp Hr Hs.
  unfold worldVertices. by rewrite !localVertices_isQuadType, Ht, Hp, Hr, Hs.
Qed.

Lemma normGroup_same (a b : SceneNode) : group a = group b → normGroup a = normGroup b.
Proof. unfold normGroup. by intros ->. Qed.

Lemma Forall2_inGroup (g : string) (ns1 ns2 : list SceneNode) :
  Forall2 sameForExport ns1 ns2 → Forall2 sameForExport (inGroup g ns1) (inGroup g ns2).
Proof.
  unfold inGroup. induction 1 as [|a b ns1 ns2 Hab Hrest IH]; [ constructor | ].
  rewrite !filter_cons. rewrite (normGroup_same a b (proj2 Hab)).
  destruct (decide (normGroup b = g)); [ by constructor | done ].
Qed.

Lemma Forall2_ordinaryGroups (ns1 ns2 : list SceneNode) :
  Forall2 sameForExport ns1 ns2 → ordinaryGroups ns1 → ordinaryGroups ns2.
Proof.
  unfold ordinaryGroups. induction 1 as [|a b ns1 ns2 Hab Hrest IH]; [ done | ].
  intros H. apply Forall_cons in H as [Ha H]. constructor; [ | by apply IH ].
  by rewrite <- (normGroup_same a b (proj2 Hab)).
Qed.

Lemma sameForExport_sym (ns1 ns2 : list SceneNode) :
  Forall2 sameForExport ns1 ns2 → Forall2 sameForExport ns2 ns1.
Proof.
  induction 1 as [|a b ns1 ns2 [Hv Hg] Hrest IH]; constructor; [ by split | done ].
Qed.

Section ExportView.

Variable toFixed4 : R → string.

Lemma emitNode_view (a b : SceneNode) (idx : nat) (w : Writer) :
  exportView a = exportView b →
  emitNode toFixed4 a idx w = emitNode toFixed4 b idx w.
Proof.
  intros H. rewrite !emitNode_eq. unfold nodeBlock, vertexCount, materialLine.
  rewrite (worldVertices_view a b H).
  unfold exportView in H. injection H as Hn Hc _ _ _ _.
  by rewrite Hn, Hc.
Qed.

Lemma forEachNode_view (idx : nat) (ns1 ns2 : list SceneNode) (w : Writer) :
  Forall2 sameForExport ns1 ns2 →
  forEachNode toFixed4 idx ns1 w = forEachNode toFixed4 idx ns2 w.
Proof.
  intros H. revert idx w.
  induction H as [|a b ns1 ns2 [Hv _] Hrest IH]; intros idx w; [ done | ].
  cbn. by rewrite (emitNode_view a b idx w Hv), IH.
Qed.

Lemma exportScene_view (now : N) (targetGroup : option string) (s1 s2 : SceneData) :
  Forall2 sameForExport (nodes s1) (nodes s2) →
  exportScene toFixed4 now targetGroup s1 = exportScene toFixed4 now targetGroup s2.
Proof.
  intros Hsame. unfold exportScene.
  assert (Forall2 sameForExport (nodesToExport targetGroup (nodes s1))
                                (nodesToExport targetGroup (nodes s2))) as Hsel.
  { unfold nodesToExport. destruct targetGroup as [g|]; [ | done ].
    case_bool_decide; [ done | by apply Forall2_inGroup ]. }
  revert Hsel.
  generalize (nodesToExport targetGroup (nodes s1)) as l1.
  generalize (nodesToExport targetGroup (nodes s2)) as l2.
  intros l2 l1 Hsel. rewrite (Forall2_length _ _ _ Hsel).
  case_bool_decide; [ done | ].
  destruct (decide (ordinaryGroups l1)) as [Hord|Hnot].
  - destruct (forEachPush_lookup l1 ∅ Hord) as (m1 & -> & Hm1).
    destruct (forEachPush_lookup l2 ∅ (Forall2_ordinaryGroups _ _ Hsel Hord))
      as (m2 & -> & Hm2).
    f_equal. apply map_eq. intros g.
    rewrite !zipFolders_lookup, Hm1, Hm2, !lookup_empty.
    pose proof (Forall2_inGroup g _ _ Hsel) as Hg.
    destruct Hg as [|a b r1 r2 Hab Hr]; [ done | ].
    cbn. do 2 f_equal. unfold groupDocument, writeGroup.
    f_equal. apply forEachNode_view. by constructor.
  - rewrite (forEachPush_inherited l1) by done.
    rewrite (forEachPush_inherited l2); [ done | ].
    intros Hord. apply Hnot.
    by apply (Forall2_ordinaryGroups l2 l1 (sameForExport_sym _ _ Hsel)).
Qed.

(** C10: the export reads of a node only its name, its index in its
    group, the colour of its material, whether its type is plane or
    window, and its position, rotation and scale (and its group, to choose
    the document).  Two scenes whose nodes agree on these pairwise export
    the same archive, and two nodes that agree on these add the same text
    at every index and every state of the writer: segments, shapePath, id
    and the other material fields have no influence. *)
Theorem export_reads_only_view (now : N) (targetGroup : option string)
    (s1 s2 : SceneData) :
  Forall2 sameForExport (nodes s1) (nodes s2) →
  exportScene toFixed4 now targetGroup s1 = exportScene toFixed4 now targetGroup s2
  ∧ (∀ (a b : SceneNode) (idx : nat) (w : Writer),
       exportView a = exportView b →
       emitNode toFixed4 a idx w = emitNode toFixed4 b idx w).
Proof.
  intros Hsame. split; [ by apply exportScene_view | ].
  intros a b idx w Hview. by apply emitNode_view.
Qed.

End ExportView.

(** ** Face winding *)

(** The transform multiplies the turn at a corner by the determinant of its
    linear part, which is the product of the scale factors over eight. *)
Lemma turn_transform (s0 s1 s2 r0 r1 r2 : R) (t a b c : Vec3) :
  let T := λ p, translatePoint t (rotatePoint (r0, r1, r2) (scalePoint (s0, s1, s2) p)) in
  turn t (T a) (T b) (T c) = (s0 * s1 * s2 / 8 * turn (0, 0, 0) a b c)%R.
Proof.
  destruct t as [[t0 t1] t2], a as [[a0 a1] a2], b as [[b0 b1] b2], c as [[c0 c1] c2].
  pose proof (sin2_cos2 r0) as H0. pose proof (sin2_cos2 r1) as H1.
  pose proof (sin2_cos2 r2) as H2. unfold Rsqr in H0, H1, H2.
  cbn -[cos sin]. 
  generalize dependent (cos r0). generalize dependent (sin r0).
  generalize dependent (cos r1). generalize dependent (sin r1).
  generalize dependent (cos r2). generalize dependent (sin r2).
  intros sz cz H2 sy cy H1 sx cx H0.
  transitivity ((sx * sx + cx * cx) * (sy * sy + cy * cy) * (sz * sz + cz * cz)
                * (s0 * s1 * s2 / 8
                   * ((b1 - a1) * (c2 - b2) - (b2 - a2) * (c1 - b1)) * (b0 - 0)
                   + s0 * s1 * s2 / 8
                     * ((b2 - a2) * (c0 - b0) - (b0 - a0) * (c2 - b2)) * (b1 - 0)
                   + s0 * s1 * s2 / 8
                     * ((b0 - a0) * (c1 - b1) - (b1 - a1) * (c0 - b0)) * (b2 - 0)))%R.
  - unfold turn, dot, cross, vsub. field.
  - rewrite H0, H1, H2. unfold turn, dot, cross, vsub. field.
Qed.

Lemma vertexAt_offset (vs : list Vec3) (o k : N) :
  vertexAt vs o (o + k) = nth (N.to_nat k) vs (0, 0, 0)%R.
Proof. unfold vertexAt. by replace (o + k - o)%N with k by lia. Qed.

Lemma vertexAt_first (vs : list Vec3) (o : N) :
  vertexAt vs o o = nth 0 vs (0, 0, 0)%R.
Proof. unfold vertexAt. by replace (o - o)%N with 0%N by lia. Qed.

(** Replaces the conversions of literal indices by their values. *)
Ltac eval_indices :=
  repeat match goal with
         | |- context [N.to_nat ?k] =>
             let n := eval vm_compute in (N.to_nat k) in
             change (N.to_nat k) with n
         end.

(** The turn at every corner of every face of a cube node is half the
    product of its scale factors. *)
Lemma cube_face_turns (node : SceneNode) (o : N) (f : list N) :
  isQuadType (type node) = false →
  f ∈ cubeFaces o →
  ∃ a b c d : Vec3,
    vertexAt (worldVertices node) o <$> f = [a; b; c; d]
    ∧ turn (position node) a b c = (scaleDet node / 2)%R
    ∧ turn (position node) b c d = (scaleDet node / 2)%R
    ∧ turn (position node) c d a = (scaleDet node / 2)%R
    ∧ turn (position node) d a b = (scaleDet node / 2)%R.
Proof.
  intros Ht Hf. unfold worldVertices, scaleDet.
  rewrite (localVertices_cube _ Ht).
  destruct (scale node) as [[s0 s1] s2], (rotation node) as [[r0 r1] r2].
  set (T := λ p, translatePoint (position node)
                   (rotatePoint (r0, r1, r2) (scalePoint (s0, s1, s2) p))).
  rewrite !map_map. fold T.
  unfold cubeFaces in Hf.
  repeat (apply elem_of_cons in Hf as [->|Hf];
    [ do 4 eexists; split;
      [ cbn [fmap list_fmap];
        rewrite ?vertexAt_first, ?vertexAt_offset; eval_indices;
        cbn [map nth]; reflexivity
      | repeat split; unfold T; rewrite turn_transform;
        unfold turn, dot, cross, vsub; field ] | ]).
  by apply elem_of_nil in Hf.
Qed.

(** C7, as the code has it: for a cube node whose scale factors have a
    positive product, each of the six faces written lists its four vertices
    counter-clockwise seen from outside the box, whatever the rotation and
    the position. *)
Theorem cube_faces_outward (node : SceneNode) (o : N) (f : list N) :
  isQuadType (type node) = false →
  (0 < scaleDet node)%R →
  f ∈ emittedFaces (worldVertices node) o →
  outwardCCW (position node) (vertexAt (worldVertices node) o <$> f).
Proof.
  intros Ht Hdet Hf. rewrite emittedFaces_topology, Ht in Hf.
  destruct (cube_face_turns node o f Ht Hf) as (a & b & c & d & -> & H1 & H2 & H3 & H4).
  unfold outwardCCW, turnsOutward. rewrite H1, H2, H3, H4. repeat split; lra.
Qed.

(** C7, as the specification words it, fails: a box mirrored along one axis (scale
    [-1, 1, 1]) has its first face, written with the indices 1 2 4 3,
    wound clockwise seen from outside. *)
Lemma mirrored_cube_face_inward :
  [1; 2; 4; 3]%N
    ∈ emittedFaces (worldVertices (sampleNode "Crate" "Props" "#8b4513" BOX (-1, 1, 1)%R)) 1
  ∧ ¬ outwardCCW (position (sampleNode "Crate" "Props" "#8b4513" BOX (-1, 1, 1)%R))
        (vertexAt (worldVertices (sampleNode "Crate" "Props" "#8b4513" BOX (-1, 1, 1)%R)) 1
           <$> [1; 2; 4; 3]%N).
Proof.
  set (node := sampleNode "Crate" "Props" "#8b4513" BOX (-1, 1, 1)%R).
  assert ([1; 2; 4; 3]%N ∈ cubeFaces 1) as Hin by apply list_elem_of_here.
  split.
  - by rewrite emittedFaces_topology.
  - destruct (cube_face_turns node 1 _ eq_refl Hin) as (a & b & c & d & -> & H1 & _).
    unfold outwardCCW, turnsOutward. intros [H _]. rewrite H1 in H.
    unfold scaleDet, node, sampleNode, scale in H. lra.
Qed.

(** ** Ingestion *)

Section IngestionProperties.

Variable JSON_parse : string → option json.
Variable JSON_stringify : json → string.
Variable Number_toString : R → string.
Variable randomSuffix : nat → string.
Variable generateContent : string → Exc (option string).
Variable generateImageAnalysis : option string → Exc (option string).
Variable asSceneData : json → SceneData.
Variable Date_now : nat → N.

Lemma nodesWithIds_rejects (data : json) :
  hasNodesArray data = false →
  ∃ e, nodesWithIds Number_toString randomSuffix data = inl e.
Proof.
  unfold nodesWithIds, hasNodesArray. destruct data as [| | | | |fields]; cbn;
    try (intros _; eexists; reflexivity).
  destruct (getField "nodes" fields) as [[| | | | |]|]; intros H;
    first [ discriminate H | eexists; reflexivity ].
Qed.

Lemma generateSceneBody_rejects (prompt context : string) (responseText : option string) :
  generateContent (contentsOf prompt context) = inr responseText →
  payloadUsable JSON_parse responseText = false →
  ∃ e, generateSceneBody JSON_parse Number_toString randomSuffix generateContent
         prompt context = inl e.
Proof.
  intros Hreply Hbad. unfold generateSceneBody. rewrite Hreply. cbn [bind].
  unfold payloadUsable in Hbad.
  destruct responseText as [jsonText|]; cbn [falsyString].
  - change (default "" (Some jsonText)) with jsonText.
    destruct (bool_decide (jsonText = "")); [ eexists; reflexivity | ].
    destruct (JSON_parse (cleanJson jsonText)) as [data|]; [ | eexists; reflexivity ].
    destruct (nodesWithIds_rejects data Hbad) as [e ->]. eexists; reflexivity.
  - eexists; reflexivity.
Qed.

(** C5: when the remote model's response carries no payload, or one that
    does not parse, or one that is not an object with a [nodes] array, the
    service returns the failure message and no scene data instead of
    throwing, and the message handler leaves the scene as it was, appends
    that message to the conversation and clears the busy flag. *)
Theorem unusable_payload_rejected (messageText : string) (attached : option string)
    (st : AppState) (responseText : option string) :
  generateContent
    (contentsOf (finalPromptOf generateImageAnalysis messageText attached)
                (currentContext JSON_stringify (sceneData st))) = inr responseText →
  payloadUsable JSON_parse responseText = false →
  generateSceneFromPrompt JSON_parse Number_toString randomSuffix generateContent
    (finalPromptOf generateImageAnalysis messageText attached)
    (currentContext JSON_stringify (sceneData st))
  = {| resultText := JStr computationError; resultData := None |}
  ∧ sceneData (handleSendMessage JSON_parse JSON_stringify Number_toString randomSuffix
                 generateContent generateImageAnalysis asSceneData Date_now
                 messageText attached st) = sceneData st
  ∧ isProcessing (handleSendMessage JSON_parse JSON_stringify Number_toString randomSuffix
                    generateContent generateImageAnalysis asSceneData Date_now
                    messageText attached st) = false
  ∧ ∃ earlier : list ChatMessage,
      history (handleSendMessage JSON_parse JSON_stringify Number_toString randomSuffix
                 generateContent generateImageAnalysis asSceneData Date_now
                 messageText attached st)
      = (earlier ++ [ {| msgId := pretty (Date_now 3); role := ai;
                         text := JStr computationError; attachment := None;
                         timestamp := Date_now 4 |} ])%list.
Proof.
  intros Hreply Hbad.
  destruct (generateSceneBody_rejects _ _ _ Hreply Hbad) as [e Hbody].
  assert (generateSceneFromPrompt JSON_parse Number_toString randomSuffix generateContent
            (finalPromptOf generateImageAnalysis messageText attached)
            (currentContext JSON_stringify (sceneData st))
          = {| resultText := JStr computationError; resultData := None |}) as Hres.
  { unfold generateSceneFromPrompt. by rewrite Hbody. }
  split; [ exact Hres | ].
  unfold handleSendMessage. rewrite Hres. cbn [resultData resultText].
  repeat split. by eexists.
Qed.

End IngestionProperties.

(** ** The hypotheses hold on examples *)


(** The scene [sceneWalls] exported for a group it does not have. *)
Lemma empty_export_is_noop_witness :
  nodesToExport (Some "Roof") (nodes (sceneData sampleState)) = []
  ∧ handleExport plainFixed 0 (Some "Roof") sampleState = (sampleState, NothingToExport).
Proof.
  assert (nodesToExport (Some "Roof") (nodes (sceneData sampleState)) = []) as Hempty
    by reflexivity.
  split; [ exact Hempty | ].
  exact (empty_export_is_noop plainFixed 0 (Some "Roof") sampleState Hempty).
Defined.

(** A box of scale [2, 1, 3], first in its document: its first face. *)
Lemma cube_faces_outward_witness :
  isQuadType (type (sampleNode "Crate" "Props" "#8b4513" BOX (2, 1, 3)%R)) = false
  ∧ (0 < scaleDet (sampleNode "Crate" "Props" "#8b4513" BOX (2, 1, 3)%R))%R
  ∧ outwardCCW (position (sampleNode "Crate" "Props" "#8b4513" BOX (2, 1, 3)%R))
      (vertexAt (worldVertices (sampleNode "Crate" "Props" "#8b4513" BOX (2, 1, 3)%R)) 1
         <$> [1; 2; 4; 3]%N).
Proof.
  assert (isQuadType (type (sampleNode "Crate" "Props" "#8b4513" BOX (2, 1, 3)%R)) = false)
    as Ht by reflexivity.
  assert (0 < scaleDet (sampleNode "Crate" "Props" "#8b4513" BOX (2, 1, 3)%R))%R as Hdet.
  { unfold scaleDet, sampleNode, scale. lra. }
  split; [ exact Ht | ]. split; [ exact Hdet | ].
  apply (cube_faces_outward _ 1 [1; 2; 4; 3]%N Ht Hdet).
  rewrite emittedFaces_topology, Ht. apply list_elem_of_here.
Defined.

(** The wall of [sceneWalls] and the same wall with another id, tessellation,
    outline and finish. *)
Lemma export_reads_only_view_witness :
  Forall2 sameForExport (nodes sceneWalls) (nodes sceneWallsRefinished)
  ∧ exportScene plainFixed 0 None sceneWalls
    = exportScene plainFixed 0 None sceneWallsRefinished.
Proof.
  assert (Forall2 sameForExport (nodes sceneWalls) (nodes sceneWallsRefinished)) as Hsame.
  { constructor; [ split; reflexivity | constructor ]. }
  split; [ exact Hsame | ].
  exact (proj1 (export_reads_only_view plainFixed 0 None sceneWalls sceneWallsRefinished Hsame)).
Defined.

(** A reply whose payload is an object without [nodes]. *)
Lemma unusable_payload_rejected_witness :
  replyWithoutNodes
    (contentsOf (finalPromptOf (λ _, throw Rejected) "Add a tower" None)
                (currentContext (λ _, "[]") (sceneData sampleState)))
  = inr (Some "Here is the scene: {} Enjoy.")
  ∧ payloadUsable parseEmptyObject (Some "Here is the scene: {} Enjoy.") = false
  ∧ sceneData (handleSendMessage parseEmptyObject (λ _, "[]") (λ _, "0") (λ _, "k3x9q2m1z")
                 replyWithoutNodes (λ _, throw Rejected) (λ _, INITIAL_SCENE) sampleClock
                 "Add a tower" None sampleState)
    = sceneData sampleState.
Proof.
  assert (replyWithoutNodes
            (contentsOf (finalPromptOf (λ _, throw Rejected) "Add a tower" None)
                        (currentContext (λ _, "[]") (sceneData sampleState)))
          = inr (Some "Here is the scene: {} Enjoy.")) as Hreply by reflexivity.
  assert (payloadUsable parseEmptyObject (Some "Here is the scene: {} Enjoy.") = false)
    as Hbad by reflexivity.
  split; [ exact Hreply | ]. split; [ exact Hbad | ].
  exact (proj1 (proj2 (unusable_payload_rejected parseEmptyObject (λ _, "[]") (λ _, "0")
                         (λ _, "k3x9q2m1z") replyWithoutNodes (λ _, throw Rejected)
                         (λ _, INITIAL_SCENE) sampleClock "Add a tower" None sampleState
                         (Some "Here is the scene: {} Enjoy.") Hreply Hbad))).
Defined.

(** * Further properties of the code *)

(** ** Geometry *)

(** X1: a node that is not rotated is exported as its axis-aligned box:
    every local coordinate is multiplied by half the scale factor of its
    axis and moved by the position; for unit scale the corners are the
    position plus or minus one half on each axis. *)
Theorem unrotated_extents (node : SceneNode) (s0 s1 s2 t0 t1 t2 : R) :
  rotation node = (0, 0, 0)%R →
  scale node = (s0, s1, s2) →
  position node = (t0, t1, t2) →
  worldVertices node
  = map (λ p, let '(x, y, z) := p in
              (t0 + x * (s0 / 2), t1 + y * (s1 / 2), t2 + z * (s2 / 2))%R)
        (localVertices (type node)).
Proof.
  intros Hr Hs Ht. unfold worldVertices. rewrite Hr, Hs, Ht, !map_map.
  apply map_ext. intros [[x y] z].
  unfold translatePoint, rotatePoint, scalePoint. rewrite cos_0, sin_0.
  vec3_split; field.
Qed.

Lemma unrotated_extents_witness :
  rotation (sampleNode "Crate" "Props" "#8b4513" BOX (1, 1, 1)%R) = (0, 0, 0)%R
  ∧ worldVertices (sampleNode "Crate" "Props" "#8b4513" BOX (1, 1, 1)%R)
    = map (λ p, let '(x, y, z) := p in
                (0 + x * (1 / 2), 0 + y * (1 / 2), 0 + z * (1 / 2))%R)
          (localVertices BOX).
Proof.
  split; [ reflexivity | ].
  exact (unrotated_extents (sampleNode "Crate" "Props" "#8b4513" BOX (1, 1, 1)%R)
           1 1 1 0 0 0 eq_refl eq_refl eq_refl).
Defined.

Lemma rotX_norm (a : R) (p : Vec3) : dot (rotX a p) (rotX a p) = dot p p.
Proof.
  destruct p as [[x y] z]. pose proof (sin2_cos2 a) as H. unfold Rsqr in H.
  unfold rotX, dot.
  transitivity (x * x + (y * y + z * z) * (sin a * sin a + cos a * cos a))%R; [ ring | ].
  rewrite H. ring.
Qed.

Lemma rotY_norm (a : R) (p : Vec3) : dot (rotY a p) (rotY a p) = dot p p.
Proof.
  destruct p as [[x y] z]. pose proof (sin2_cos2 a) as H. unfold Rsqr in H.
  unfold rotY, dot.
  transitivity (y * y + (x * x + z * z) * (sin a * sin a + cos a * cos a))%R; [ ring | ].
  rewrite H. ring.
Qed.

Lemma rotZ_norm (a : R) (p : Vec3) : dot (rotZ a p) (rotZ a p) = dot p p.
Proof.
  destruct p as [[x y] z]. pose proof (sin2_cos2 a) as H. unfold Rsqr in H.
  unfold rotZ, dot.
  transitivity (z * z + (x * x + y * y) * (sin a * sin a + cos a * cos a))%R; [ ring | ].
  rewrite H. ring.
Qed.

Lemma rotatePoint_norm (rot p : Vec3) :
  dot (rotatePoint rot p) (rotatePoint rot p) = dot p p.
Proof.
  destruct rot as [[r0 r1] r2]. rewrite rotatePoint_elementary.
  by rewrite rotZ_norm, rotY_norm, rotX_norm.
Qed.

Lemma translatePoint_vsub (t p : Vec3) : vsub (translatePoint t p) t = p.
Proof. destruct t as [[t0 t1] t2], p as [[x y] z]. vec3_ring. Qed.

(** X2: whatever the rotation, each exported vertex is as far from the
    position of its node as the scaled local vertex is from the origin; the
    eight corners of a box lie on one sphere around the position, of squared
    radius a quarter of the sum of the squared scale factors. *)
Theorem vertices_keep_distance (node : SceneNode) :
  (∀ (i : nat) (p v : Vec3),
     localVertices (type node) !! i = Some p →
     worldVertices node !! i = Some v →
     distSq v (position node)
     = dot (scalePoint (scale node) p) (scalePoint (scale node) p))
  ∧ (∀ (v : Vec3) (s0 s1 s2 : R),
       isQuadType (type node) = false → scale node = (s0, s1, s2) →
       v ∈ worldVertices node →
       distSq v (position node) = ((s0 * s0 + s1 * s1 + s2 * s2) / 4)%R).
Proof.
  assert (∀ p, distSq (translatePoint (position node)
                         (rotatePoint (rotation node) (scalePoint (scale node) p)))
                      (position node)
               = dot (scalePoint (scale node) p) (scalePoint (scale node) p)) as Hdist.
  { intros p. unfold distSq. by rewrite translatePoint_vsub, rotatePoint_norm. }
  split.
  - intros i p v Hp Hv. unfold worldVertices in Hv.
    rewrite !list_lookup_fmap, Hp in Hv. injection Hv as <-. apply Hdist.
  - intros v s0 s1 s2 Ht Hs Hv. unfold worldVertices in Hv.
    rewrite (localVertices_cube _ Ht), !map_map in Hv.
    apply list_elem_of_fmap in Hv as (p & -> & Hp). rewrite Hdist, Hs.
    repeat (apply elem_of_cons in Hp as [->|Hp]; [ unfold scalePoint, dot; field | ]).
    by apply elem_of_nil in Hp.
Qed.

(** X3: a plane or window has no thickness in the export: the third scale
    factor has no influence on its vertices. *)
Theorem quad_ignores_depth (a b : SceneNode) (s0 s1 d d' : R) :
  isQuadType (type a) = true → isQuadType (type b) = true →
  scale a = (s0, s1, d) → scale b = (s0, s1, d') →
  rotation a = rotation b → position a = position b →
  worldVertices a = worldVertices b.
Proof.
  intros Ha Hb Hsa Hsb Hr Hp. unfold worldVertices.
  rewrite (localVertices_quad _ Ha), (localVertices_quad _ Hb), Hsa, Hsb, Hr, Hp.
  f_equal. f_equal. cbn [map scalePoint]. by rewrite !Rmult_0_l.
Qed.

Lemma quad_ignores_depth_witness :
  isQuadType (type (sampleNode "Lake" "Ungrouped" "#0000ff" PLANE (6, 6, 1)%R)) = true
  ∧ worldVertices (sampleNode "Lake" "Ungrouped" "#0000ff" PLANE (6, 6, 1)%R)
    = worldVertices (sampleNode "Lake" "Ungrouped" "#0000ff" PLANE (6, 6, 9)%R).
Proof.
  split; [ reflexivity | ].
  exact (quad_ignores_depth (sampleNode "Lake" "Ungrouped" "#0000ff" PLANE (6, 6, 1)%R)
           (sampleNode "Lake" "Ungrouped" "#0000ff" PLANE (6, 6, 9)%R)
           6 6 1 9 eq_refl eq_refl eq_refl eq_refl eq_refl eq_refl).
Defined.

(** ** Export *)

Lemma inGroup_nonempty (g : string) (ns : list SceneNode) :
  inGroup g ns ≠ [] ↔ ∃ n, n ∈ ns ∧ normGroup n = g.
Proof.
  unfold inGroup. split.
  - intros Hne. destruct (filter (λ n, normGroup n = g) ns) as [|n l] eqn:E; [ done | ].
    exists n. assert (n ∈ filter (λ n, normGroup n = g) ns) as Hin.
    { rewrite E. apply list_elem_of_here. }
    apply list_elem_of_filter in Hin as [Hg Hin]. done.
  - intros (n & Hin & Hg) Hnil.
    assert (n ∈ filter (λ n, normGroup n = g) ns) as Hin'.
    { apply list_elem_of_filter. done. }
    rewrite Hnil in Hin'. by apply elem_of_nil in Hin'.
Qed.

Lemma normGroup_nonempty (n : SceneNode) : normGroup n ≠ "".
Proof. unfold normGroup. case_bool_decide; [ discriminate | done ]. Qed.

Section ExportFurther.

Variable toFixed4 : R → string.

(** X4: one node whose normalized group is a name that objects inherit
    (such as [constructor] or [toString]) among the nodes to export makes
    the whole export end in a [TypeError]: no archive is produced, for the
    other groups either. *)
Theorem inherited_group_stops_export (now : N) (targetGroup : option string)
    (scene : SceneData) (node : SceneNode) :
  node ∈ nodesToExport targetGroup (nodes scene) →
  inheritedKey (normGroup node) = true →
  exportScene toFixed4 now targetGroup scene = ExportTypeError.
Proof.
  intros Hin Hkey. unfold exportScene.
  rewrite bool_decide_eq_false_2.
  - rewrite forEachPush_inherited; [ done | ].
    intros Hord. unfold ordinaryGroups in Hord.
    rewrite Forall_forall in Hord. specialize (Hord node Hin). congruence.
  - intros Hlen. apply length_zero_iff_nil in Hlen. rewrite Hlen in Hin.
    by apply elem_of_nil in Hin.
Qed.

(** X5: when there is a node to export and the group names are ordinary, the
    export downloads one archive.  It has one folder per normalized group of
    the exported nodes and no other; no folder has an empty name; the folder
    of a group holds one file, named after the group, written from the
    nodes of that group in the order of the scene. *)
Theorem export_archive_folders (now : N) (targetGroup : option string) (scene : SceneData) :
  nodesToExport targetGroup (nodes scene) ≠ [] →
  ordinaryGroups (nodesToExport targetGroup (nodes scene)) →
  ∃ (zip : gmap string (string * string)) (fileName : string),
    exportScene toFixed4 now targetGroup scene = Download zip fileName
    ∧ (∀ g, zip !! g
            = match inGroup g (nodesToExport targetGroup (nodes scene)) with
              | [] => None
              | l => Some (g ++ ".obj", groupDocument toFixed4 g l)
              end)
    ∧ (∀ g, is_Some (zip !! g)
            ↔ ∃ n, n ∈ nodesToExport targetGroup (nodes scene) ∧ normGroup n = g)
    ∧ zip !! "" = None.
Proof.
  intros Hne Hord. unfold exportScene.
  rewrite bool_decide_eq_false_2
    by (intros Hlen; by apply length_zero_iff_nil in Hlen).
  destruct (forEachPush_lookup _ ∅ Hord) as (m & -> & Hm).
  do 2 eexists. split; [ reflexivity | ].
  assert (∀ g, zipFolders toFixed4 m !! g
               = match inGroup g (nodesToExport targetGroup (nodes scene)) with
                 | [] => None
                 | l => Some (g ++ ".obj", groupDocument toFixed4 g l)
                 end) as Hzip.
  { intros g. rewrite zipFolders_lookup, Hm, lookup_empty.
    by destruct (inGroup g (nodesToExport targetGroup (nodes scene))). }
  split; [ exact Hzip | ]. split.
  - intros g. rewrite Hzip, <- inGroup_nonempty.
    destruct (inGroup g (nodesToExport targetGroup (nodes scene))).
    + split; [ by intros [? ?] | done ].
    + split; [ done | by eexists ].
  - rewrite Hzip.
    destruct (inGroup "" (nodesToExport targetGroup (nodes scene))) as [|n l] eqn:E;
      [ done | ].
    assert (n ∈ inGroup "" (nodesToExport targetGroup (nodes scene))) as Hin.
    { rewrite E. apply list_elem_of_here. }
    apply list_elem_of_filter in Hin as [Hg _]. by destruct (normGroup_nonempty n).
Qed.

(** X6: nodes without a group are exported together with the nodes whose
    group is spelled [Ungrouped], in one document: the folder [Ungrouped] of
    a full export is written from the nodes whose group is empty or
    [Ungrouped], in the order of the scene. *)
Theorem ungrouped_nodes_share_a_folder (now : N) (scene : SceneData) :
  ordinaryGroups (nodes scene) →
  outcomeZip (exportScene toFixed4 now None scene) !! "Ungrouped"
  = match filter (λ n, group n = "" ∨ group n = "Ungrouped") (nodes scene) with
    | [] => None
    | l => Some ("Ungrouped.obj", groupDocument toFixed4 "Ungrouped" l)
    end.
Proof.
  intros Hord. rewrite exportScene_full by done.
  assert (inGroup "Ungrouped" (nodes scene)
          = filter (λ n, group n = "" ∨ group n = "Ungrouped") (nodes scene)) as ->.
  { unfold inGroup. apply list_filter_iff. intros n. unfold normGroup.
    case_bool_decide as Hg.
    - split; [ by left | done ].
    - split; [ by right | by intros [?|?] ]. }
  done.
Qed.

Lemma forEachNode_blocks (idx : nat) (ns : list SceneNode) (w : Writer) :
  forEachNode toFixed4 idx ns w
  = {| objOutput := objOutput w ++ catLines (blocksFrom toFixed4 idx (vertexOffset w) ns);
       vertexOffset := (vertexOffset w + 8 * N.of_nat (length (cubeNodes ns))
                                       + 4 * N.of_nat (length (quadNodes ns)))%N |}.
Proof.
  pose proof (forEachNode_offset toFixed4 idx ns w) as Hoff.
  destruct (forEachNode toFixed4 idx ns w) as [out off] eqn:E. cbn in Hoff. subst off.
  f_equal. apply (f_equal objOutput) in E. cbn in E. subst out.
  revert idx w. induction ns as [|n ns IH]; intros idx w.
  - cbn. by rewrite String_app_nil_r.
  - cbn [forEachNode blocksFrom catLines]. rewrite IH, emitNode_eq.
    cbn [objOutput vertexOffset]. by rewrite String_app_assoc.
Qed.

Lemma catLines_app (l1 l2 : list string) :
  catLines (l1 ++ l2)%list = catLines l1 ++ catLines l2.
Proof.
  induction l1 as [|x l1 IH]; [ reflexivity | ].
  cbn [catLines app]. by rewrite IH, String_app_assoc.
Qed.

(** X7: a group's document is its header followed by the blocks of its
    nodes, and it grows by appending: the document of a group with further
    nodes at its end is the document without them followed by their blocks,
    numbered from the index and the vertex counter where the shorter
    document stops. *)
Theorem document_grows_by_appending (groupName : string) (ns more : list SceneNode) :
  groupDocument toFixed4 groupName ns
  = objOutput (startGroup groupName) ++ catLines (blocksFrom toFixed4 0 1 ns)
  ∧ groupDocument toFixed4 groupName (ns ++ more)%list
    = groupDocument toFixed4 groupName ns
        ++ catLines (blocksFrom toFixed4 (length ns)
                       (1 + 8 * N.of_nat (length (cubeNodes ns))
                          + 4 * N.of_nat (length (quadNodes ns))) more).
Proof.
  unfold groupDocument, writeGroup. split.
  - by rewrite forEachNode_blocks.
  - rewrite forEachNode_app, Nat.add_0_l.
    rewrite (forEachNode_blocks (length ns) more).
    cbn [objOutput]. by rewrite forEachNode_offset.
Qed.

End ExportFurther.

Lemma inherited_group_stops_export_witness :
  sampleNode "Crane" "constructor" "#ffcc00" BOX (1, 1, 1)%R
    ∈ nodesToExport None (nodes sceneConstructor)
  ∧ inheritedKey (normGroup (sampleNode "Crane" "constructor" "#ffcc00" BOX (1, 1, 1)%R)) = true
  ∧ exportScene plainFixed 0 None sceneConstructor = ExportTypeError.
Proof.
  assert (sampleNode "Crane" "constructor" "#ffcc00" BOX (1, 1, 1)%R
            ∈ nodesToExport None (nodes sceneConstructor)) as Hin
    by apply list_elem_of_here.
  assert (inheritedKey (normGroup (sampleNode "Crane" "constructor" "#ffcc00" BOX (1, 1, 1)%R))
          = true) as Hkey.
  { rewrite normGroup_sampleNode by discriminate. by vm_compute. }
  split; [ exact Hin | ]. split; [ exact Hkey | ].
  exact (inherited_group_stops_export plainFixed 0 None sceneConstructor _ Hin Hkey).
Defined.

Lemma sceneLoose_ordinary : ordinaryGroups (nodes sceneLoose).
Proof.
  constructor; [ by vm_compute | ]. constructor; [ | constructor ].
  rewrite normGroup_sampleNode by discriminate. by vm_compute.
Qed.

Lemma export_archive_folders_witness :
  nodesToExport None (nodes sceneLoose) ≠ []
  ∧ ordinaryGroups (nodesToExport None (nodes sceneLoose))
  ∧ ∃ (zip : gmap string (string * string)) (fileName : string),
      exportScene plainFixed 0 None sceneLoose = Download zip fileName
      ∧ zip !! "" = None.
Proof.
  assert (nodesToExport None (nodes sceneLoose) ≠ []) as Hne by discriminate.
  split; [ exact Hne | ]. split; [ exact sceneLoose_ordinary | ].
  destruct (export_archive_folders plainFixed 0 None sceneLoose Hne sceneLoose_ordinary)
    as (zip & fileName & Hexp & _ & _ & Hempty).
  exists zip, fileName. split; [ exact Hexp | exact Hempty ].
Defined.

Lemma ungrouped_nodes_share_a_folder_witness :
  ordinaryGroups (nodes sceneLoose)
  ∧ outcomeZip (exportScene plainFixed 0 None sceneLoose) !! "Ungrouped"
    = match filter (λ n, group n = "" ∨ group n = "Ungrouped") (nodes sceneLoose) with
      | [] => None
      | l => Some ("Ungrouped.obj", groupDocument plainFixed "Ungrouped" l)
      end.
Proof.
  split; [ exact sceneLoose_ordinary | ].
  exact (ungrouped_nodes_share_a_folder plainFixed 0 sceneLoose sceneLoose_ordinary).
Defined.

(** ** Strings *)

Lemma String_length_app (a b : string) :
  String.length (a ++ b) = (String.length a + String.length b)%nat.
Proof.
  induction a as [|ch a IH]; [ reflexivity | ].
  rewrite String_app_cons. cbn [String.length]. by rewrite IH.
Qed.

Lemma String_app_inv_tail (x y t : string) : x ++ t = y ++ t → x = y.
Proof.
  revert y. induction x as [|c x IH]; intros [|c' y] H.
  - reflexivity.
  - apply (f_equal String.length) in H. rewrite !String_length_app in H.
    cbn [String.length] in H. lia.
  - apply (f_equal String.length) in H. rewrite !String_length_app in H.
    cbn [String.length] in H. lia.
  - rewrite !String_app_cons in H. injection H as -> H. by rewrite (IH y H).
Qed.

Lemma indexOf_cons_intro (c a : ascii) (s : string) :
  a ≠ c → indexOf c s = (-1)%Z → indexOf c (String a s) = (-1)%Z.
Proof.
  intros Hne Hs. cbn [indexOf]. apply Ascii.eqb_neq in Hne. by rewrite Hne, Hs.
Qed.

Lemma indexOf_here (c : ascii) (s : string) : indexOf c (String c s) = 0%Z.
Proof. cbn [indexOf]. by rewrite Ascii.eqb_refl. Qed.

Lemma indexOf_app_absent (c : ascii) (x y : string) :
  indexOf c (x ++ y) = (-1)%Z ↔ indexOf c x = (-1)%Z ∧ indexOf c y = (-1)%Z.
Proof.
  induction x as [|a x IH].
  - cbn. tauto.
  - rewrite String_app_cons. split.
    + intros H. apply indexOf_cons_absent in H as [Hne H]. apply IH in H as [Hx Hy].
      split; [ by apply indexOf_cons_intro | done ].
    + intros [Hx Hy]. apply indexOf_cons_absent in Hx as [Hne Hx].
      apply indexOf_cons_intro; [ done | ]. apply IH. done.
Qed.

Lemma indexOf_first (c : ascii) (x y : string) :
  indexOf c x = (-1)%Z → indexOf c (x ++ String c y) = Z.of_nat (String.length x).
Proof.
  induction x as [|a x IH]; intros Hx.
  - apply indexOf_here.
  - apply indexOf_cons_absent in Hx as [Hne Hx]. rewrite String_app_cons.
    cbn [indexOf String.length]. apply Ascii.eqb_neq in Hne. rewrite Hne, (IH Hx).
    destruct (Z.of_nat (String.length x) <? 0)%Z eqn:E; lia.
Qed.

Lemma lastIndexOf_ge (c : ascii) (s : string) : (-1 <= lastIndexOf c s)%Z.
Proof.
  induction s as [|a s IH]; cbn; [ lia | ].
  destruct (0 <=? lastIndexOf c s)%Z eqn:E; [ lia | ]. destruct (Ascii.eqb a c); lia.
Qed.

Lemma lastIndexOf_last (c : ascii) (x y : string) :
  lastIndexOf c y = (-1)%Z → lastIndexOf c (x ++ String c y) = Z.of_nat (String.length x).
Proof.
  intros Hy. induction x as [|a x IH].
  - change ("" ++ String c y) with (String c y).
    cbn [lastIndexOf String.length]. rewrite Hy. cbn.
    by rewrite Ascii.eqb_refl.
  - rewrite String_app_cons. cbn [lastIndexOf String.length]. rewrite IH.
    destruct (0 <=? Z.of_nat (String.length x))%Z eqn:E; lia.
Qed.

Lemma String_substring_prefix (m y : string) :
  String.substring 0 (String.length m) (m ++ y) = m.
Proof.
  induction m as [|c m IH].
  - cbn. by destruct y.
  - rewrite String_app_cons. cbn [String.length String.substring]. by rewrite IH.
Qed.

Lemma String_substring_middle (x m y : string) :
  String.substring (String.length x) (String.length m) (x ++ m ++ y) = m.
Proof.
  induction x as [|c x IH].
  - change ("" ++ m ++ y) with (m ++ y). apply String_substring_prefix.
  - rewrite String_app_cons. cbn [String.length String.substring]. apply IH.
Qed.

Lemma substring_middle (x m y : string) :
  substring (x ++ m ++ y) (Z.of_nat (String.length x))
            (Z.of_nat (String.length x + String.length m)) = m.
Proof.
  unfold substring. rewrite !String_length_app.
  replace (Z.to_nat _) with (String.length x) by lia.
  replace (Z.to_nat _) with (String.length m) by lia.
  apply String_substring_middle.
Qed.

Lemma substring_middle_swapped (x m y : string) :
  substring (x ++ m ++ y) (Z.of_nat (String.length x + String.length m))
            (Z.of_nat (String.length x)) = m.
Proof.
  unfold substring. rewrite !String_length_app.
  replace (Z.to_nat _) with (String.length x) by lia.
  replace (Z.to_nat _) with (String.length m) by lia.
  apply String_substring_middle.
Qed.

(** ** The payload between the braces *)

(** X8: prose around the payload is dropped: when the response is some text
    without an opening brace, then [{ ... }], then some text without a
    closing brace, what is handed to the parser is exactly the braces and
    what they enclose. *)
Theorem cleanJson_keeps_braced_part (pre mid post : string) :
  indexOf "{" pre = (-1)%Z →
  lastIndexOf "}" post = (-1)%Z →
  cleanJson (pre ++ "{" ++ mid ++ "}" ++ post) = "{" ++ mid ++ "}".
Proof.
  intros Hpre Hpost. unfold cleanJson.
  change (pre ++ "{" ++ mid ++ "}" ++ post)
    with (pre ++ String "{" (mid ++ String "}" post)).
  rewrite (indexOf_first "{" pre _ Hpre).
  replace (pre ++ String "{" (mid ++ String "}" post))
    with ((pre ++ String "{" mid) ++ String "}" post)
    by (by rewrite String_app_assoc).
  rewrite (lastIndexOf_last "}" _ post Hpost).
  replace ((pre ++ String "{" mid) ++ String "}" post)
    with (pre ++ ("{" ++ mid ++ "}") ++ post)
    by (by rewrite !String_app_assoc).
  replace (Z.of_nat (String.length (pre ++ String "{" mid)) + 1)%Z
    with (Z.of_nat (String.length pre + String.length ("{" ++ mid ++ "}"))).
  - apply substring_middle.
  - repeat (rewrite ?String_length_app; cbn [String.length]). lia.
Qed.

Lemma cleanJson_keeps_braced_part_witness :
  indexOf "{" "Here is the scene: " = (-1)%Z
  ∧ lastIndexOf "}" " Enjoy." = (-1)%Z
  ∧ cleanJson ("Here is the scene: " ++ "{" ++ "" ++ "}" ++ " Enjoy.") = "{" ++ "" ++ "}".
Proof.
  split; [ reflexivity | ]. split; [ reflexivity | ].
  exact (cleanJson_keeps_braced_part "Here is the scene: " "" " Enjoy." eq_refl eq_refl).
Defined.

(** X9: two edges of the extraction.  A response with no brace at all
    hands the parser the empty string.  And when the last closing brace
    comes before the first opening brace, the two positions are swapped by
    [substring]: the parser is handed what lies strictly between them. *)
Theorem cleanJson_without_object (text before between after : string) :
  (indexOf "{" text = (-1)%Z → lastIndexOf "}" text = (-1)%Z → cleanJson text = "")
  ∧ (indexOf "{" (before ++ "}" ++ between) = (-1)%Z →
     lastIndexOf "}" (between ++ "{" ++ after) = (-1)%Z →
     cleanJson (before ++ "}" ++ between ++ "{" ++ after) = between).
Proof.
  split.
  - intros Hopen Hclose. unfold cleanJson, substring. rewrite Hopen, Hclose.
    replace (Z.to_nat _) with 0%nat by lia. replace (Z.to_nat _) with 0%nat by lia.
    by destruct text.
  - intros Hopen Hclose. unfold cleanJson.
    replace (before ++ "}" ++ between ++ "{" ++ after)
      with ((before ++ "}" ++ between) ++ String "{" after)
      by (by rewrite !String_app_assoc).
    rewrite (indexOf_first "{" _ after Hopen).
    replace ((before ++ "}" ++ between) ++ String "{" after)
      with (before ++ String "}" (between ++ "{" ++ after))
      by (by rewrite !String_app_assoc).
    rewrite (lastIndexOf_last "}" before _ Hclose).
    replace (before ++ String "}" (between ++ "{" ++ after))
      with ((before ++ "}") ++ between ++ ("{" ++ after))
      by (by rewrite !String_app_assoc).
    replace (Z.of_nat (String.length (before ++ "}" ++ between)))
      with (Z.of_nat (String.length (before ++ "}") + String.length between))
      by (repeat (rewrite ?String_length_app; cbn [String.length]); lia).
    replace (Z.of_nat (String.length before) + 1)%Z
      with (Z.of_nat (String.length (before ++ "}")))
      by (repeat (rewrite ?String_length_app; cbn [String.length]); lia).
    apply substring_middle_swapped.
Qed.

(** ** Labels *)

Lemma pretty_N_char_digit (c : ascii) (d : N) :
  indexOf c "0123456789" = (-1)%Z → pretty_N_char d ≠ c.
Proof.
  intros Hc Heq. subst c. unfold pretty_N_char in Hc.
  repeat (case_match; try (by vm_compute in Hc)).
Qed.

Lemma pretty_N_go_without (c : ascii) (x : N) (s : string) :
  indexOf c "0123456789" = (-1)%Z →
  indexOf c s = (-1)%Z → indexOf c (pretty_N_go x s) = (-1)%Z.
Proof.
  intros Hc. revert s. induction (N.lt_wf_0 x) as [x _ IH]; intros s Hs.
  assert (x = 0 ∨ 0 < x)%N as [->|Hpos] by lia.
  - by rewrite pretty_N_go_0.
  - rewrite pretty_N_go_step by done. apply IH.
    + by apply N.div_lt.
    + apply indexOf_cons_intro; [ by apply pretty_N_char_digit | done ].
Qed.

(** The decimal form of a number holds digits only. *)
Lemma pretty_N_without (c : ascii) (n : N) :
  indexOf c "0123456789" = (-1)%Z → indexOf c (pretty n) = (-1)%Z.
Proof.
  intros Hc. unfold pretty, pretty_N. case_decide.
  - apply indexOf_cons_absent in Hc as [Hne _]. by apply indexOf_cons_intro.
  - by apply pretty_N_go_without.
Qed.

Lemma indexOf_present (c : ascii) (x y : string) : indexOf c (x ++ String c y) ≠ (-1)%Z.
Proof.
  induction x as [|a x IH].
  - change ("" ++ String c y) with (String c y). rewrite indexOf_here. lia.
  - rewrite String_app_cons. intros H. by apply indexOf_cons_absent in H as [_ H].
Qed.

(** A text cut at its last separator: the two parts are determined. *)
Lemma split_at_last (c : ascii) (a b d1 d2 : string) :
  indexOf c d1 = (-1)%Z → indexOf c d2 = (-1)%Z →
  a ++ String c d1 = b ++ String c d2 → a = b ∧ d1 = d2.
Proof.
  intros H1 H2. revert b. induction a as [|x a IH]; intros [|y b] H.
  - change ("" ++ String c d1) with (String c d1) in H.
    change ("" ++ String c d2) with (String c d2) in H. by injection H.
  - change ("" ++ String c d1) with (String c d1) in H.
    rewrite String_app_cons in H. injection H as _ H.
    rewrite H in H1. by destruct (indexOf_present c b d2).
  - change ("" ++ String c d2) with (String c d2) in H.
    rewrite String_app_cons in H. injection H as _ H.
    rewrite <- H in H2. by destruct (indexOf_present c a d1).
  - rewrite !String_app_cons in H. injection H as -> H.
    destruct (IH b H) as [-> ->]. done.
Qed.

(** X10: the object line disambiguates: the lines [o name_index] written
    for two nodes are equal only when the names are equal and the indices
    are equal, so within a document, where every node has its own index, no
    two objects share a label, even when names end in digits or contain
    underscores. *)
Theorem object_labels_distinct (a b : SceneNode) (i j : nat) :
  "o " ++ name a ++ "_" ++ pretty i ++ nl = "o " ++ name b ++ "_" ++ pretty j ++ nl →
  name a = name b ∧ i = j.
Proof.
  intros H. apply String.app_inj in H.
  assert (∀ n : nat, indexOf "_" (pretty n ++ nl) = (-1)%Z) as Hdigits.
  { intros n. apply indexOf_app_absent. split; [ | reflexivity ].
    unfold pretty, pretty_nat. by apply pretty_N_without. }
  change (name a ++ String "_" (pretty i ++ nl) = name b ++ String "_" (pretty j ++ nl)) in H.
  apply split_at_last in H as [Hname Hidx]; [ | apply Hdigits .. ].
  split; [ exact Hname | ].
  apply String_app_inv_tail in Hidx. by apply (inj pretty) in Hidx.
Qed.

Lemma object_labels_distinct_witness :
  "o " ++ name (sampleNode "Wall_1" "Walls" "#808080" WALL (4, 3, 1/5)%R) ++ "_" ++ pretty 2%nat ++ nl
  = "o " ++ name (sampleNode "Wall_1" "Walls" "#808080" WALL (4, 3, 1/5)%R) ++ "_" ++ pretty 2%nat ++ nl
  ∧ 2%nat = 2%nat.
Proof.
  split; [ reflexivity | ].
  exact (proj2 (object_labels_distinct
                  (sampleNode "Wall_1" "Walls" "#808080" WALL (4, 3, 1/5)%R)
                  (sampleNode "Wall_1" "Walls" "#808080" WALL (4, 3, 1/5)%R) 2 2 eq_refl)).
Defined.

(** ** The service and the message handler *)

Lemma getField_setField (k : string) (v : json) (fields : list (string * json)) :
  getField k (setField k v fields) = Some v.
Proof.
  induction fields as [|[k' v'] fields IH]; cbn.
  - by rewrite bool_decide_eq_true_2.
  - case_bool_decide as Hk; cbn.
    + by rewrite bool_decide_eq_true_2.
    + by rewrite bool_decide_eq_false_2.
Qed.


Section ServiceFurther.

Variable JSON_parse : string → option json.
Variable JSON_stringify : json → string.
Variable Number_toString : R → string.
Variable randomSuffix : nat → string.
Variable generateContent : string → Exc (option string).
Variable generateImageAnalysis : option string → Exc (option string).
Variable asSceneData : json → SceneData.
Variable Date_now : nat → N.

Lemma withId_value (i : nat) (node : json) :
  node ≠ JNull → withId Number_toString randomSuffix i node
  = inr (identified Number_toString randomSuffix i node).
Proof. intros Hnode. by destruct node. Qed.


Lemma mapWithId_null (i : nat) (items : list json) :
  JNull ∈ items → mapWithId Number_toString randomSuffix i items = inl TypeError.
Proof.
  revert i. induction items as [|node items IH]; intros i Hnull.
  - by apply elem_of_nil in Hnull.
  - cbn [mapWithId].
    assert (node = JNull ∨ node ≠ JNull) as [->|Hnode]
      by (destruct node; first [ by left | by right ]).
    { reflexivity. }
    rewrite withId_value by done. cbn [bind].
    apply elem_of_cons in Hnull as [Heq|Hnull]; [ by destruct Hnode | ].
    by rewrite (IH (S i) Hnull).
Qed.

(** X11: no partial apply.  One [null] among the elements of [nodes] makes
    the service reject the whole payload: the failure text, no scene data,
    and the handler leaves the scene as it was. *)
Theorem null_node_rejects_payload (messageText : string) (attached : option string)
    (st : AppState) (jsonText : string) (fields : list (string * json))
    (items : list json) :
  generateContent
    (contentsOf (finalPromptOf generateImageAnalysis messageText attached)
                (currentContext JSON_stringify (sceneData st))) = inr (Some jsonText) →
  jsonText ≠ "" →
  JSON_parse (cleanJson jsonText) = Some (JObj fields) →
  getField "nodes" fields = Some (JArr items) →
  JNull ∈ items →
  generateSceneFromPrompt JSON_parse Number_toString randomSuffix generateContent
    (finalPromptOf generateImageAnalysis messageText attached)
    (currentContext JSON_stringify (sceneData st))
  = {| resultText := JStr computationError; resultData := None |}
  ∧ sceneData (handleSendMessage JSON_parse JSON_stringify Number_toString randomSuffix
                 generateContent generateImageAnalysis asSceneData Date_now
                 messageText attached st) = sceneData st.
Proof.
  intros Hreply Hne Hparse Hnodes Hnull.
  assert (generateSceneFromPrompt JSON_parse Number_toString randomSuffix generateContent
            (finalPromptOf generateImageAnalysis messageText attached)
            (currentContext JSON_stringify (sceneData st))
          = {| resultText := JStr computationError; resultData := None |}) as Hres.
  { unfold generateSceneFromPrompt, generateSceneBody. rewrite Hreply. cbn [bind falsyString].
    rewrite bool_decide_eq_false_2 by done.
    change (default "" (Some jsonText)) with jsonText. rewrite Hparse.
    unfold nodesWithIds. cbn [prop bind ret]. rewrite Hnodes.
    by rewrite mapWithId_null. }
  split; [ exact Hres | ].
  unfold handleSendMessage. by rewrite Hres.
Qed.


(** X13: two elements can only get the same id when the same suffix was
    drawn for both (and their names print alike), provided the suffixes
    hold no underscore, as base-36 digits do not. *)
Theorem equal_ids_need_equal_suffixes (i j : nat) (a b a' b' : json) :
  indexOf "_" (randomSuffix i) = (-1)%Z →
  indexOf "_" (randomSuffix j) = (-1)%Z →
  withId Number_toString randomSuffix i a = inr a' →
  withId Number_toString randomSuffix j b = inr b' →
  prop a' "id" = prop b' "id" →
  randomSuffix i = randomSuffix j
  ∧ toStrOpt Number_toString (nameOf a) = toStrOpt Number_toString (nameOf b).
Proof.
  intros Hi Hj Ha Hb Hid.
  assert (a ≠ JNull) as Hna by (intros ->; discriminate Ha).
  assert (b ≠ JNull) as Hnb by (intros ->; discriminate Hb).
  rewrite withId_value in Ha, Hb by done.
  injection Ha as <-. injection Hb as <-. unfold identified, prop, ret in Hid.
  rewrite !getField_setField in Hid. injection Hid as Hid.
  change (toStrOpt Number_toString (nameOf a) ++ String "_" (randomSuffix i)
          = toStrOpt Number_toString (nameOf b) ++ String "_" (randomSuffix j)) in Hid.
  by apply split_at_last in Hid as [? ?].
Qed.

(** X14: a failed remote call.  When the call to the model throws, the
    service returns the failure text without scene data, and the handler
    keeps the scene, appends that text as the reply and clears the busy
    flag. *)
Theorem rejected_call_keeps_scene (messageText : string) (attached : option string)
    (st : AppState) (e : Thrown) :
  generateContent
    (contentsOf (finalPromptOf generateImageAnalysis messageText attached)
                (currentContext JSON_stringify (sceneData st))) = inl e →
  generateSceneFromPrompt JSON_parse Number_toString randomSuffix generateContent
    (finalPromptOf generateImageAnalysis messageText attached)
    (currentContext JSON_stringify (sceneData st))
  = {| resultText := JStr computationError; resultData := None |}
  ∧ sceneData (handleSendMessage JSON_parse JSON_stringify Number_toString randomSuffix
                 generateContent generateImageAnalysis asSceneData Date_now
                 messageText attached st) = sceneData st
  ∧ isProcessing (handleSendMessage JSON_parse JSON_stringify Number_toString randomSuffix
                    generateContent generateImageAnalysis asSceneData Date_now
                    messageText attached st) = false
  ∧ text <$> last (history (handleSendMessage JSON_parse JSON_stringify Number_toString
                              randomSuffix generateContent generateImageAnalysis
                              asSceneData Date_now messageText attached st))
    = Some (JStr computationError).
Proof.
  intros Hreply.
  assert (generateSceneFromPrompt JSON_parse Number_toString randomSuffix generateContent
            (finalPromptOf generateImageAnalysis messageText attached)
            (currentContext JSON_stringify (sceneData st))
          = {| resultText := JStr computationError; resultData := None |}) as Hres.
  { unfold generateSceneFromPrompt, generateSceneBody. by rewrite Hreply. }
  split; [ exact Hres | ].
  unfold handleSendMessage. rewrite Hres. cbn [resultData resultText sceneData isProcessing history].
  repeat split. by rewrite last_snoc.
Qed.

End ServiceFurther.

Lemma null_node_rejects_payload_witness :
  replyWithNull
    (contentsOf (finalPromptOf (λ _, throw Rejected) "Add a tower" None)
                (currentContext (λ _, "[]") (sceneData sampleState)))
  = inr (Some ("Sure. " ++ textWithNull))
  ∧ parseSamples (cleanJson ("Sure. " ++ textWithNull)) = Some (JObj fieldsWithNull)
  ∧ JNull ∈ [ JObj [ ("name", JStr "Tower") ]; JNull ]
  ∧ sceneData (handleSendMessage parseSamples (λ _, "[]") (λ _, "0") (λ _, "k3x9q2m1z")
                 replyWithNull (λ _, throw Rejected) (λ _, INITIAL_SCENE) sampleClock
                 "Add a tower" None sampleState)
    = sceneData sampleState.
Proof.
  assert (parseSamples (cleanJson ("Sure. " ++ textWithNull)) = Some (JObj fieldsWithNull))
    as Hparse by (vm_compute; reflexivity).
  assert (JNull ∈ [ JObj [ ("name", JStr "Tower") ]; JNull ]) as Hnull
    by (apply list_elem_of_further, list_elem_of_here).
  assert ("Sure. " ++ textWithNull ≠ "") as Hne by (vm_compute; discriminate).
  split; [ reflexivity | ]. split; [ exact Hparse | ]. split; [ exact Hnull | ].
  exact (proj2 (null_node_rejects_payload parseSamples (λ _, "[]") (λ _, "0")
                  (λ _, "k3x9q2m1z") replyWithNull (λ _, throw Rejected)
                  (λ _, INITIAL_SCENE) sampleClock "Add a tower" None sampleState
                  ("Sure. " ++ textWithNull) fieldsWithNull
                  [ JObj [ ("name", JStr "Tower") ]; JNull ]
                  eq_refl Hne Hparse eq_refl Hnull)).
Defined.


Lemma equal_ids_need_equal_suffixes_witness :
  indexOf "_" (fixedSuffix 0) = (-1)%Z ∧ fixedSuffix 0 = fixedSuffix 1.
Proof.
  split; [ reflexivity | ].
  exact (proj1 (equal_ids_need_equal_suffixes (λ _, "0") fixedSuffix 0 1
                  (JObj [ ("name", JStr "Tower") ]) (JObj [ ("name", JStr "Tower") ])
                  _ _ eq_refl eq_refl eq_refl eq_refl eq_refl)).
Defined.

Lemma rejected_call_keeps_scene_witness :
  rejectingCall
    (contentsOf (finalPromptOf rejectingCall "Add a tower" None)
                (currentContext (λ _, "[]") (sceneData sampleState)))
  = inl Rejected
  ∧ sceneData (handleSendMessage parseSamples (λ _, "[]") (λ _, "0") fixedSuffix
                 rejectingCall rejectingCall (λ _, INITIAL_SCENE) sampleClock
                 "Add a tower" None sampleState)
    = sceneData sampleState.
Proof.
  split; [ reflexivity | ].
  exact (proj1 (proj2 (rejected_call_keeps_scene parseSamples (λ _, "[]") (λ _, "0")
                         fixedSuffix rejectingCall rejectingCall
                         (λ _, INITIAL_SCENE) sampleClock "Add a tower" None sampleState
                         Rejected eq_refl))).
Defined.

Section HandlerFurther.

Variable JSON_parse : string → option json.
Variable JSON_stringify : json → string.
Variable Number_toString : R → string.
Variable randomSuffix : nat → string.
Variable generateContent : string → Exc (option string).
Variable generateImageAnalysis : option string → Exc (option string).
Variable asSceneData : json → SceneData.
Variable Date_now : nat → N.

Lemma generateSceneBody_text (prompt context : string) (result : GenerationResult) :
  generateSceneBody JSON_parse Number_toString randomSuffix generateContent prompt context
  = inr result →
  truthy (Some (resultText result)) = true ∧ is_Some (resultData result).
Proof.
  unfold generateSceneBody.
  destruct (generateContent (contentsOf prompt context)) as [e|responseText];
    [ discriminate | ].
  cbn [bind]. destruct (falsyString responseText); [ discriminate | ].
  destruct (JSON_parse (cleanJson (default "" responseText))) as [data|]; [ | discriminate ].
  destruct (nodesWithIds Number_toString randomSuffix data) as [e|items]; [ discriminate | ].
  cbn [bind]. destruct (prop data "aiReasoning") as [e|aiReasoning]; [ discriminate | ].
  cbn [bind ret]. intros H. injection H as <-. cbn [resultText resultData].
  split; [ | by eexists ].
  destruct (truthy aiReasoning) eqn:E; [ | reflexivity ].
  destruct aiReasoning as [v|]; [ exact E | discriminate E ].
Qed.

Lemma computationError_truthy : truthy (Some (JStr computationError)) = true.
Proof. by vm_compute. Qed.

Lemma service_text_truthy (prompt context : string) :
  truthy (Some (resultText
                  (generateSceneFromPrompt JSON_parse Number_toString randomSuffix
                     generateContent prompt context))) = true.
Proof.
  unfold generateSceneFromPrompt.
  destruct (generateSceneBody _ _ _ _ _ _) as [e|result] eqn:E.
  - exact computationError_truthy.
  - by destruct (generateSceneBody_text _ _ _ E).
Qed.

(** X15: the reply shown is the service's text, in every case; that text
    is never empty or otherwise falsy, so the handler's own default for a
    scene update (its [||] branch) is never what is shown.  The scene is
    the new one exactly when the service returned data, and is otherwise
    the one before. *)
Theorem reply_is_service_text (messageText : string) (attached : option string)
    (st : AppState) :
  text <$> last (history (handleSendMessage JSON_parse JSON_stringify Number_toString
                            randomSuffix generateContent generateImageAnalysis
                            asSceneData Date_now messageText attached st))
  = Some (resultText
            (generateSceneFromPrompt JSON_parse Number_toString randomSuffix generateContent
               (finalPromptOf generateImageAnalysis messageText attached)
               (currentContext JSON_stringify (sceneData st))))
  ∧ truthy (Some (resultText
                    (generateSceneFromPrompt JSON_parse Number_toString randomSuffix
                       generateContent
                       (finalPromptOf generateImageAnalysis messageText attached)
                       (currentContext JSON_stringify (sceneData st))))) = true
  ∧ sceneData (handleSendMessage JSON_parse JSON_stringify Number_toString randomSuffix
                 generateContent generateImageAnalysis asSceneData Date_now
                 messageText attached st)
    = match resultData
              (generateSceneFromPrompt JSON_parse Number_toString randomSuffix generateContent
                 (finalPromptOf generateImageAnalysis messageText attached)
                 (currentContext JSON_stringify (sceneData st))) with
      | Some data => asSceneData data
      | None => sceneData st
      end.
Proof.
  pose proof (service_text_truthy (finalPromptOf generateImageAnalysis messageText attached)
                (currentContext JSON_stringify (sceneData st))) as Htruthy.
  split; [ | split; [ exact Htruthy | ] ]; unfold handleSendMessage;
    destruct (resultData (generateSceneFromPrompt _ _ _ _ _ _)) as [data|] eqn:Hdata;
    cbn [history sceneData]; rewrite ?last_snoc; cbn [fmap option_fmap option_map text];
    rewrite ?Htruthy; reflexivity.
Qed.

Lemma pretty_not_analyzing (n : N) : pretty n ≠ "analyzing".
Proof.
  intros H. pose proof (pretty_N_without "a" n eq_refl) as Ha.
  rewrite H in Ha. by vm_compute in Ha.
Qed.

(** X16: one exchange adds two messages: the history after a message is
    the history before it without any [analyzing] placeholder, then the
    message of the user, then the reply; no message with the placeholder's
    id is left, with or without an attachment; and the busy flag is
    cleared. *)
Theorem exchange_adds_two_messages (messageText : string) (attached : option string)
    (st : AppState) :
  history (handleSendMessage JSON_parse JSON_stringify Number_toString randomSuffix
             generateContent generateImageAnalysis asSceneData Date_now
             messageText attached st)
  = (filter (λ m, msgId m ≠ "analyzing") (history st)
       ++ [ userMessage Date_now messageText attached;
            replyMessage Date_now
              (resultText
                 (generateSceneFromPrompt JSON_parse Number_toString randomSuffix
                    generateContent
                    (finalPromptOf generateImageAnalysis messageText attached)
                    (currentContext JSON_stringify (sceneData st)))) ])%list
  ∧ Forall (λ m, msgId m ≠ "analyzing")
           (history (handleSendMessage JSON_parse JSON_stringify Number_toString randomSuffix
                       generateContent generateImageAnalysis asSceneData Date_now
                       messageText attached st))
  ∧ isProcessing (handleSendMessage JSON_parse JSON_stringify Number_toString randomSuffix
                    generateContent generateImageAnalysis asSceneData Date_now
                    messageText attached st) = false.
Proof.
  pose proof (service_text_truthy (finalPromptOf generateImageAnalysis messageText attached)
                (currentContext JSON_stringify (sceneData st))) as Htruthy.
  assert (history (handleSendMessage JSON_parse JSON_stringify Number_toString randomSuffix
             generateContent generateImageAnalysis asSceneData Date_now
             messageText attached st)
          = (filter (λ m, msgId m ≠ "analyzing") (history st)
             ++ [ userMessage Date_now messageText attached;
                  replyMessage Date_now
                    (resultText
                       (generateSceneFromPrompt JSON_parse Number_toString randomSuffix
                          generateContent
                          (finalPromptOf generateImageAnalysis messageText attached)
                          (currentContext JSON_stringify (sceneData st)))) ])%list) as Hhist.
  { unfold handleSendMessage, userMessage, replyMessage.
    destruct (resultData (generateSceneFromPrompt _ _ _ _ _ _)) as [data|];
      cbn [history]; rewrite ?Htruthy;
      (destruct (falsyString attached);
       rewrite ?filter_app, !filter_cons, !filter_nil;
       rewrite (decide_True (P := _ ≠ "analyzing")) by apply pretty_not_analyzing;
       rewrite ?(decide_False (P := "analyzing" ≠ "analyzing")) by (intros H; by apply H);
       by rewrite ?app_nil_r, <- ?app_assoc). }
  split; [ exact Hhist | ]. split.
  - rewrite Hhist. apply Forall_app. split.
    + apply Forall_forall. intros m Hm. by apply list_elem_of_filter in Hm as [? _].
    + repeat constructor; apply pretty_not_analyzing.
  - unfold handleSendMessage.
    by destruct (resultData (generateSceneFromPrompt _ _ _ _ _ _)).
Qed.

(** X17: the analysis of an image never comes back empty, whatever the
    remote side does; and the prompt sent to the model is empty only for a
    message with an empty text and no attachment. *)
Theorem prompt_is_rarely_empty (messageText : string) (attached : option string)
    (base64Image : option string) :
  analyzeTextureImage generateImageAnalysis base64Image ≠ ""
  ∧ (finalPromptOf generateImageAnalysis messageText attached = ""
     ↔ messageText = "" ∧ falsyString attached = true).
Proof.
  split.
  - unfold analyzeTextureImage.
    destruct (generateImageAnalysis base64Image) as [e|[t|]]; cbn [falsyString default];
      [ discriminate | | discriminate ].
    case_bool_decide as Ht; [ discriminate | ]. exact Ht.
  - unfold finalPromptOf. destruct (falsyString attached).
    + split; [ by intros -> | by intros [-> _] ].
    + split; [ intros H; discriminate H | by intros [_ ?] ].
Qed.

End HandlerFurther.

(** ** The viewport *)

Lemma truthyNumber_spec (x : option R) :
  truthyNumber x = true ↔ ∃ v, x = Some v ∧ v ≠ 0%R.
Proof.
  unfold truthyNumber. destruct x as [v|].
  - destruct (Req_dec_T v 0) as [->|Hv].
    + split; [ discriminate | ]. intros (v & Hv & Hne). injection Hv as <-. by destruct Hne.
    + split; [ by exists v | done ].
  - split; [ discriminate | ]. by intros (v & Hv & _).
Qed.



(** X19: the meshes that cast no shadow in the viewport are exactly the
    nodes the export writes as a quad. *)
Theorem flat_types_agree (node : SceneNode) :
  castShadow node = negb (isQuadType (type node))
  ∧ (castShadow node = false ↔ length (worldVertices node) = 4%nat).
Proof.
  assert (castShadow node = negb (isQuadType (type node))) as H.
  { unfold castShadow, isQuadType. by destruct (type node). }
  split; [ exact H | ]. rewrite H, length_worldVertices.
  destruct (isQuadType (type node)); cbn; split; intros; done || lia.
Qed.

(** X20: the status line reads MIXED exactly when some node asks for fewer
    than sixteen segments with a number that is not zero; absent segments
    and zero segments count as the smooth default of 64. *)
Theorem poly_label_rule (scene : SceneData) :
  (polyLabel scene = "MIXED"
   ↔ ∃ n s, n ∈ nodes scene ∧ segments n = Some s ∧ s ≠ 0%R ∧ (s < 16)%R)
  ∧ (polyLabel scene = "MIXED" ∨ polyLabel scene = "HIGH")
  ∧ (∀ n, segments n = None ∨ segments n = Some 0%R → effectiveSegments n = 64%R).
Proof.
  assert (∀ n, (if Rlt_dec (effectiveSegments n) 16 then true else false) = true
               ↔ ∃ s, segments n = Some s ∧ s ≠ 0%R ∧ (s < 16)%R) as Hnode.
  { intros n. unfold effectiveSegments.
    destruct (truthyNumber (segments n)) eqn:E.
    - apply truthyNumber_spec in E as (s & Hs & Hne). rewrite Hs.
      change (default 0%R (Some s)) with s.
      destruct (Rlt_dec s 16) as [Hlt|Hge].
      + split; [ intros _; by exists s | done ].
      + split; [ discriminate | ]. intros (s' & Hs' & _ & Hlt). injection Hs' as <-.
        by destruct Hge.
    - destruct (Rlt_dec 64 16) as [Hlt|_]; [ lra | ].
      split; [ discriminate | ]. intros (s & Hs & Hne & _).
      assert (truthyNumber (segments n) = true) as E'
        by (apply truthyNumber_spec; by exists s).
      congruence. }
  split; [ | split ].
  - unfold polyLabel.
    destruct (existsb _ (nodes scene)) eqn:E.
    + split; [ intros _ | done ]. apply existsb_exists in E as (n & Hin & Hn).
      apply Hnode in Hn as (s & Hs). exists n, s. split; [ by apply list_elem_of_In | done ].
    + split; [ discriminate | ]. intros (n & s & Hin & Hs).
      assert (existsb (λ n, if Rlt_dec (effectiveSegments n) 16 then true else false)
                      (nodes scene) = true) as E'.
      { apply existsb_exists. exists n. split; [ by apply list_elem_of_In | ].
        apply Hnode. by exists s. }
      congruence.
  - unfold polyLabel. destruct (existsb _ (nodes scene)); [ by left | by right ].
  - intros n Hn. unfold effectiveSegments.
    destruct (truthyNumber (segments n)) eqn:E; [ | done ].
    apply truthyNumber_spec in E as (s & Hs & Hne).
    destruct Hn as [Hn|Hn]; rewrite Hn in Hs; [ discriminate Hs | ].
    injection Hs as <-. by destruct Hne.
Qed.


(** ** The explorer *)

Section ExplorerProperties.

Variable toFixed4 : R → string.
Variable localeCompare : string → string → Z.

Lemma insertByName_perm (n : SceneNode) (l : list SceneNode) :
  insertByName localeCompare n l ≡ₚ n :: l.
Proof.
  induction l as [|m l IH]; [ done | ]. cbn.
  destruct (0 <? localeCompare (name n) (name m))%Z; [ | done ].
  rewrite IH. apply Permutation_swap.
Qed.

Lemma sortedNodes_perm (ns : list SceneNode) : sortedNodes localeCompare ns ≡ₚ ns.
Proof.
  induction ns as [|n ns IH]; [ done | ]. cbn. by rewrite insertByName_perm, IH.
Qed.

Lemma inGroup_perm (g : string) (l l' : list SceneNode) :
  l ≡ₚ l' → inGroup g l ≡ₚ inGroup g l'.
Proof. intros H. unfold inGroup. by rewrite H. Qed.

Lemma ordinaryGroups_sorted (ns : list SceneNode) :
  ordinaryGroups (sortedNodes localeCompare ns) ↔ ordinaryGroups ns.
Proof. unfold ordinaryGroups. by rewrite sortedNodes_perm. Qed.

(** X22: the explorer and the export group alike.  On a scene whose group
    names are ordinary, the explorer lists a group exactly when the full
    export has a document for it, and the nodes it lists under a group are
    the nodes of that document, rearranged by the sort.  On a scene with a
    group name that objects inherit, building the explorer's list throws
    like the export does. *)
Theorem explorer_groups_match_export (now : N) (scene : SceneData) :
  (ordinaryGroups (nodes scene) →
   ∃ h : gmap string (list SceneNode),
     hierarchy localeCompare scene = Some h
     ∧ (∀ g, h !! g = match inGroup g (sortedNodes localeCompare (nodes scene)) with
                      | [] => None
                      | l => Some l
                      end)
     ∧ (∀ g l, h !! g = Some l → l ≡ₚ inGroup g (nodes scene))
     ∧ (∀ g, is_Some (h !! g)
             ↔ is_Some (outcomeZip (exportScene toFixed4 now None scene) !! g)))
  ∧ (¬ ordinaryGroups (nodes scene) → hierarchy localeCompare scene = None).
Proof.
  split.
  - intros Hord. unfold hierarchy.
    destruct (forEachPush_lookup (sortedNodes localeCompare (nodes scene)) ∅)
      as (h & Hh & Hlookup); [ by apply ordinaryGroups_sorted | ].
    exists h. split; [ exact Hh | ].
    assert (∀ g, h !! g = match inGroup g (sortedNodes localeCompare (nodes scene)) with
                          | [] => None
                          | l => Some l
                          end) as Hg.
    { intros g. rewrite Hlookup, lookup_empty. done. }
    split; [ exact Hg | ]. split.
    + intros g l Hl. rewrite Hg in Hl.
      pose proof (inGroup_perm g _ _ (sortedNodes_perm (nodes scene))) as Hperm.
      destruct (inGroup g (sortedNodes localeCompare (nodes scene))); [ done | ].
      injection Hl as <-. exact Hperm.
    + intros g. rewrite Hg, exportScene_full by done.
      pose proof (inGroup_perm g _ _ (sortedNodes_perm (nodes scene))) as Hperm.
      destruct (inGroup g (sortedNodes localeCompare (nodes scene))) as [|a l];
        destruct (inGroup g (nodes scene)) as [|b l'].
      * done.
      * by apply Permutation_nil_cons in Hperm.
      * symmetry in Hperm. by apply Permutation_nil_cons in Hperm.
      * split; intros _; by eexists.
  - intros Hnot. unfold hierarchy. apply forEachPush_inherited.
    by rewrite ordinaryGroups_sorted.
Qed.

(** X23: the download button of a group the explorer lists never hits the
    silent no-op: exporting with that group as the filter downloads an
    archive named after the group, with that group's document alone. *)
Theorem listed_group_downloads (now : N) (scene : SceneData)
    (h : gmap string (list SceneNode)) (g : string) (l : list SceneNode) :
  hierarchy localeCompare scene = Some h →
  h !! g = Some l →
  ∃ n ns, inGroup g (nodes scene) = n :: ns
    ∧ exportScene toFixed4 now (Some g) scene
      = Download {[ g := (g ++ ".obj", groupDocument toFixed4 g (n :: ns)) ]} (g ++ ".zip").
Proof.
  intros Hh Hl.
  destruct (decide (ordinaryGroups (nodes scene))) as [Hord|Hnot].
  - unfold hierarchy in Hh.
    destruct (forEachPush_lookup (sortedNodes localeCompare (nodes scene)) ∅)
      as (h' & Hh' & Hlookup); [ by apply ordinaryGroups_sorted | ].
    rewrite Hh' in Hh. injection Hh as <-.
    rewrite Hlookup, lookup_empty in Hl.
    pose proof (inGroup_perm g _ _ (sortedNodes_perm (nodes scene))) as Hperm.
    destruct (inGroup g (sortedNodes localeCompare (nodes scene))) as [|a l0] eqn:Es;
      [ discriminate Hl | ].
    assert (g ≠ "") as Hg.
    { assert (a ∈ inGroup g (sortedNodes localeCompare (nodes scene))) as Hin
        by (rewrite Es; apply list_elem_of_here).
      apply list_elem_of_filter in Hin as [<- _]. apply normGroup_nonempty. }
    destruct (inGroup g (nodes scene)) as [|n ns] eqn:En.
    { symmetry in Hperm. by apply Permutation_nil_cons in Hperm. }
    exists n, ns. split; [ done | ].
    rewrite exportScene_filtered by done. by rewrite En.
  - unfold hierarchy in Hh. rewrite forEachPush_inherited in Hh; [ discriminate Hh | ].
    by rewrite ordinaryGroups_sorted.
Qed.

Lemma insertByName_sorted (n : SceneNode) (l : list SceneNode) :
  (∀ a b, 0 < localeCompare a b → localeCompare b a <= 0)%Z →
  (∀ a b c, localeCompare a b <= 0 → localeCompare b c <= 0 → localeCompare a c <= 0)%Z →
  inNameOrder localeCompare l → inNameOrder localeCompare (insertByName localeCompare n l).
Proof.
  intros Hflip Htrans. unfold inNameOrder.
  induction l as [|m l IH]; intros Hl.
  - cbn. by repeat constructor.
  - cbn. destruct (0 <? localeCompare (name n) (name m))%Z eqn:E.
    + apply Z.ltb_lt in E. apply StronglySorted_inv in Hl as [Hl Hm].
      constructor; [ by apply IH | ].
      rewrite insertByName_perm. constructor; [ by apply Hflip | done ].
    + apply Z.ltb_ge in E. constructor; [ done | ].
      constructor; [ done | ]. apply StronglySorted_inv in Hl as [_ Hm].
      eapply Forall_impl; [ exact Hm | ]. intros x Hx. by eapply Htrans.
Qed.

Lemma inGroup_in_name_order (g : string) (l : list SceneNode) :
  inNameOrder localeCompare l → inNameOrder localeCompare (inGroup g l).
Proof.
  unfold inNameOrder, inGroup. induction 1 as [|n l Hl IH Hn]; [ constructor | ].
  rewrite filter_cons. destruct (decide (normGroup n = g)); [ | exact IH ].
  constructor; [ exact IH | ]. apply Forall_forall. intros m Hm.
  apply list_elem_of_filter in Hm as [_ Hm]. by eapply Forall_forall in Hn.
Qed.

(** X24: when the comparator orders the names (what it calls greater is
    not smaller the other way round, and it is transitive), the explorer
    lists the nodes of every group in the order of their names. *)
Theorem explorer_groups_in_name_order (scene : SceneData)
    (h : gmap string (list SceneNode)) (g : string) (l : list SceneNode) :
  (∀ a b, 0 < localeCompare a b → localeCompare b a <= 0)%Z →
  (∀ a b c, localeCompare a b <= 0 → localeCompare b c <= 0 → localeCompare a c <= 0)%Z →
  hierarchy localeCompare scene = Some h →
  h !! g = Some l →
  inNameOrder localeCompare l.
Proof.
  intros Hflip Htrans Hh Hl.
  assert (inNameOrder localeCompare (sortedNodes localeCompare (nodes scene))) as Hsorted.
  { induction (nodes scene) as [|n ns IH]; [ constructor | ].
    cbn. by apply insertByName_sorted. }
  destruct (decide (ordinaryGroups (nodes scene))) as [Hord|Hnot].
  - unfold hierarchy in Hh.
    destruct (forEachPush_lookup (sortedNodes localeCompare (nodes scene)) ∅)
      as (h' & Hh' & Hlookup); [ by apply ordinaryGroups_sorted | ].
    rewrite Hh' in Hh. injection Hh as <-.
    rewrite Hlookup, lookup_empty in Hl.
    assert (l = inGroup g (sortedNodes localeCompare (nodes scene))) as ->.
    { destruct (inGroup g (sortedNodes localeCompare (nodes scene)));
        [ discriminate Hl | by injection Hl ]. }
    by apply inGroup_in_name_order.
  - unfold hierarchy in Hh. rewrite forEachPush_inherited in Hh; [ discriminate Hh | ].
    by rewrite ordinaryGroups_sorted.
Qed.

End ExplorerProperties.

Lemma sceneWalls_hierarchy :
  ∃ h : gmap string (list SceneNode),
    hierarchy compareLength sceneWalls = Some h
    ∧ h !! "Walls" = Some [ sampleNode "Wall_North" "Walls" "#808080" WALL (4, 3, 1/5)%R ].
Proof.
  assert ("Walls" ≠ "") as Hwalls by discriminate.
  unfold hierarchy. cbn [sceneWalls nodes sortedNodes insertByName].
  destruct (forEachPush_lookup
              [ sampleNode "Wall_North" "Walls" "#808080" WALL (4, 3, 1/5)%R ] ∅)
    as (h & Hh & Hlookup).
  { constructor; [ | constructor ]. rewrite normGroup_sampleNode by exact Hwalls.
    by vm_compute. }
  exists h. split; [ exact Hh | ].
  rewrite Hlookup, lookup_empty, inGroup_singleton, normGroup_sampleNode by exact Hwalls.
  rewrite decide_True by reflexivity. reflexivity.
Qed.

Lemma listed_group_downloads_witness :
  ∃ (h : gmap string (list SceneNode)) (l : list SceneNode),
    hierarchy compareLength sceneWalls = Some h
    ∧ h !! "Walls" = Some l
    ∧ ∃ n ns, inGroup "Walls" (nodes sceneWalls) = n :: ns.
Proof.
  destruct sceneWalls_hierarchy as (h & Hh & Hl).
  exists h, [ sampleNode "Wall_North" "Walls" "#808080" WALL (4, 3, 1/5)%R ].
  split; [ exact Hh | ]. split; [ exact Hl | ].
  destruct (listed_group_downloads plainFixed compareLength 0 sceneWalls h "Walls" _ Hh Hl)
    as (n & ns & Hin & _).
  exists n, ns. exact Hin.
Defined.

Lemma compareLength_orders :
  (∀ a b, 0 < compareLength a b → compareLength b a <= 0)%Z
  ∧ (∀ a b c, compareLength a b <= 0 → compareLength b c <= 0 → compareLength a c <= 0)%Z.
Proof. unfold compareLength. split; intros; lia. Qed.

Lemma explorer_groups_in_name_order_witness :
  (∀ a b, 0 < compareLength a b → compareLength b a <= 0)%Z
  ∧ ∃ (h : gmap string (list SceneNode)) (l : list SceneNode),
      hierarchy compareLength sceneWalls = Some h
      ∧ h !! "Walls" = Some l
      ∧ inNameOrder compareLength l.
Proof.
  destruct compareLength_orders as [Hflip Htrans].
  split; [ exact Hflip | ].
  destruct sceneWalls_hierarchy as (h & Hh & Hl).
  exists h, [ sampleNode "Wall_North" "Walls" "#808080" WALL (4, 3, 1/5)%R ].
  split; [ exact Hh | ]. split; [ exact Hl | ].
  exact (explorer_groups_in_name_order compareLength sceneWalls h "Walls" _
           Hflip Htrans Hh Hl).
Defined.
